(** * Brian-XMD: the WhatsApp Cloud API webhook of [webhook.js]

    A shallow embedding of the single-file webhook: its string helpers, the
    command registry ([commands], [register]), the six built-in commands, the
    dispatcher ([dispatchCommandByName]) and the exported request handler.

    Conventions of the embedding.
    - A JavaScript string is a [string]; each [ascii] stands for one UTF-16
      code unit in the range U+0000..U+00FF.  Text outside that range is not
      covered by [trim] and [toLowerCase] below.
    - A value that may be [undefined] is an [option].
    - Asynchronous code is sequential ([await] at every call), so it is
      written in a state-and-exception monad over the trace of the calls
      made to the outside world. *)

From Stdlib Require Import String Ascii List Bool Arith ZArith.
Import ListNotations.

Local Open Scope string_scope.
Local Open Scope list_scope.
Local Open Scope nat_scope.

(** String concatenation, written apart from the append of lists. *)
Infix "+++" := String.append (right associativity, at level 60).

(* ================================================================== *)
(** ** JavaScript string primitives used by the webhook *)

Module Js.

(** White space of [String.prototype.trim] among U+0000..U+00FF:
    TAB, LF, VT, FF, CR, SPACE and NO-BREAK SPACE. *)
Definition is_space (c : ascii) : bool :=
  let n := nat_of_ascii c in
  ((9 <=? n) && (n <=? 13)) || (n =? 32) || (n =? 160).

Definition SPACE : ascii := " "%char.
Definition PIPE : ascii := "|"%char.
Definition TAB : ascii := ascii_of_nat 9.
Definition LF : ascii := ascii_of_nat 10.

(** Truthiness of a string: only the empty string is falsy. *)
Definition truthy (s : string) : bool :=
  match s with EmptyString => false | String _ _ => true end.

(** Truthiness of a possibly undefined string. *)
Definition truthy_opt (v : option string) : bool :=
  match v with Some s => truthy s | None => false end.

(** [a || b] on possibly undefined strings. *)
Definition or_else (a b : option string) : option string :=
  if truthy_opt a then a else b.

(** [a || "literal"]: the default is a string, so the result is one. *)
Definition or_default (a : option string) (d : string) : string :=
  match a with
  | Some (String c r) => String c r
  | _ => d
  end.

Fixpoint trimStart (s : string) : string :=
  match s with
  | EmptyString => EmptyString
  | String c r => if is_space c then trimStart r else s
  end.

Fixpoint trimEnd (s : string) : string :=
  match s with
  | EmptyString => EmptyString
  | String c r =>
      match trimEnd r with
      | EmptyString => if is_space c then EmptyString else String c EmptyString
      | r' => String c r'
      end
  end.

Definition trim (s : string) : string := trimEnd (trimStart s).

(** [s.split(sep)] for a one-character separator: the pieces between the
    occurrences of [sep], empty pieces included; never the empty list. *)
Fixpoint split (sep : ascii) (s : string) : list string :=
  match s with
  | EmptyString => [EmptyString]
  | String c r =>
      if Ascii.eqb c sep then EmptyString :: split sep r
      else match split sep r with
           | [] => [String c EmptyString]
           | p :: ps => String c p :: ps
           end
  end.

(** [xs.join(sep)]. *)
Definition join (sep : string) (xs : list string) : string :=
  String.concat sep xs.

(** [xs.filter(Boolean)] on an array of strings. *)
Definition filter_Boolean (xs : list string) : list string :=
  filter truthy xs.

(** [s.includes(c)] for a one-character needle. *)
Fixpoint includes (c : ascii) (s : string) : bool :=
  match s with
  | EmptyString => false
  | String d r => Ascii.eqb d c || includes c r
  end.

(** [s.startsWith(c)] for a one-character prefix. *)
Definition startsWith (c : ascii) (s : string) : bool :=
  match s with
  | EmptyString => false
  | String d _ => Ascii.eqb d c
  end.

(** [s.slice(1)]. *)
Definition slice1 (s : string) : string :=
  match s with
  | EmptyString => EmptyString
  | String _ r => r
  end.

(** [xs.slice(1)] on an array. *)
Definition slice1_list {A} (xs : list A) : list A := tl xs.

(** Lower-casing of one code unit of U+0000..U+00FF: A-Z, and the Latin-1
    capitals U+00C0..U+00DE except the multiplication sign U+00D7. *)
Definition lower_char (c : ascii) : ascii :=
  let n := nat_of_ascii c in
  if ((65 <=? n) && (n <=? 90))
     || ((192 <=? n) && (n <=? 222) && negb (n =? 215))
  then ascii_of_nat (n + 32) else c.

Fixpoint toLowerCase (s : string) : string :=
  match s with
  | EmptyString => EmptyString
  | String c r => String (lower_char c) (toLowerCase r)
  end.

(** [a === b] on possibly undefined strings. *)
Definition strict_eq (a b : option string) : bool :=
  match a, b with
  | Some x, Some y => String.eqb x y
  | None, None => true
  | _, _ => false
  end.

(** [xs.includes(s)] on an array of strings. *)
Definition list_includes (s : string) (xs : list string) : bool :=
  existsb (String.eqb s) xs.

End Js.

(* ================================================================== *)
(** ** Tokenizer (lines 293-295, 300, 316, 321 of the handler) *)

(** [message.text.body.trim()]. *)
Definition text_of (body : string) : string := Js.trim body.

(** [text.split(" ").filter(Boolean)]. *)
Definition tokens_of (text : string) : list string :=
  Js.filter_Boolean (Js.split Js.SPACE text).

(** [tokens[0] || ""]. *)
Definition first_of (tokens : list string) : string :=
  match tokens with
  | [] => ""
  | t :: _ => t
  end.

(** [tokens.slice(1).join(" ")]. *)
Definition args_of (tokens : list string) : string :=
  Js.join " " (Js.slice1_list tokens).

Definition tokenize (body : string) : list string := tokens_of (text_of body).

(* ================================================================== *)
(** ** The outside world: thrown values, calls and their trace *)

(** A thrown value: an object whose [message], when it has one, is a string
    (what [fetch] and [google-tts-api] reject or throw with). *)
Record js_error := { message : option string }.

(** The JSON payload handed to [sendToMeta]. *)
Inductive payload :=
| TextPayload (to : string) (text_body : string)
| AudioPayload (to : string) (audio_link : string).

(** What the process does to the outside world, in order. *)
Inductive event :=
| MetaPost (p : payload)                         (* fetch(graph.facebook.com ...) *)
| LibrePost (q target : string)                  (* fetch(LIBRETRANSLATE_URL ...) *)
| ConsoleError (what : list string) (e : js_error).

Definition trace := list event.

(** A [fetch] that resolved: the status, and the body when it parses as
    JSON (kept as its text). *)
Record http_response := { res_status : Z; res_json : option string }.

(** The value [sendToMeta] resolves to: [{ status, body }]. *)
Record meta_reply := { status : Z; body : string }.

(** The collaborators.  Each answer may depend on everything that happened
    before the call.
    - [meta_fetch]: the Graph API call rejects, or resolves to a response;
    - [libre_fetch]: anything inside the [try] of [translateText] throws
      (the fetch rejects, the body is not JSON), or the parsed document is
      there and [translatedText] is its field, absent or a string;
    - [getAudioUrl]: [googleTTS.getAudioUrl(text, { lang, slow: false, host })],
      a computation without network access that may throw. *)
Record network := {
  meta_fetch : trace -> payload -> js_error + http_response;
  libre_fetch : trace -> string -> string -> js_error + option string;
  getAudioUrl : string -> string -> js_error + string
}.

(** [process.env], for the variables the modelled code reads itself.
    WHATSAPP_TOKEN, WHATSAPP_PHONE_NUMBER_ID and LIBRETRANSLATE_URL only
    shape the requests that [meta_fetch] and [libre_fetch] stand for. *)
Record process_env := {
  env_WHATSAPP_VERIFY_TOKEN : option string;
  env_BOT_NAME : option string;
  env_CREATOR : option string;
  env_CHANNEL_LINK : option string;
  env_GROUP_LINK : option string
}.

(* ================================================================== *)
(** ** The monad of asynchronous functions *)

Inductive outcome (A : Type) :=
| Return (a : A)
| Throw (e : js_error).
Arguments Return {A} a.
Arguments Throw {A} e.

(** An [async] function: from the trace so far to its outcome and the trace
    extended by what it did. *)
Definition M (A : Type) : Type := trace -> outcome A * trace.

Definition ret {A} (a : A) : M A := fun h => (Return a, h).

Definition throw {A} (e : js_error) : M A := fun h => (Throw e, h).

Definition bind {A B} (m : M A) (k : A -> M B) : M B :=
  fun h =>
    match m h with
    | (Return a, h') => k a h'
    | (Throw e, h') => (Throw e, h')
    end.

(** [try { body } catch (e) { handler }]. *)
Definition try_catch {A} (body : M A) (handler : js_error -> M A) : M A :=
  fun h =>
    match body h with
    | (Return a, h') => (Return a, h')
    | (Throw e, h') => handler e h'
    end.

(** Record one call to the outside world. *)
Definition emit (ev : event) : M unit := fun h => (Return tt, h ++ [ev]).

(** Read the trace, for a collaborator to answer from. *)
Definition history : M trace := fun h => (Return h, h).

(** Settle with what a collaborator answered. *)
Definition settle {A} (r : js_error + A) : M A :=
  match r with
  | inl e => throw e
  | inr a => ret a
  end.

Declare Scope js_scope.
Delimit Scope js_scope with js.
Notation "x <- m ;; k" := (bind m (fun x => k))
  (at level 61, m at next level, right associativity) : js_scope.
Notation "m ;; k" := (bind m (fun _ => k))
  (at level 61, right associativity) : js_scope.
Local Open Scope js_scope.

(** [for (const x of xs) { await f(x) }]. *)
Fixpoint for_of {A} (xs : list A) (f : A -> M unit) : M unit :=
  match xs with
  | [] => ret tt
  | x :: r => f x ;; for_of r f
  end.

(** [console.error(...what, e)]. *)
Definition console_error (what : list string) (e : js_error) : M unit :=
  emit (ConsoleError what e).

(* ================================================================== *)
(** ** [Map]: keys in insertion order, a key set again keeps its place *)

Module JsMap.

Fixpoint set {V} (k : string) (v : V) (m : list (string * V)) : list (string * V) :=
  match m with
  | [] => [(k, v)]
  | (k', v') :: r =>
      if String.eqb k' k then (k, v) :: r else (k', v') :: set k v r
  end.

Fixpoint get {V} (k : string) (m : list (string * V)) : option V :=
  match m with
  | [] => None
  | (k', v') :: r => if String.eqb k' k then Some v' else get k r
  end.

Definition has {V} (k : string) (m : list (string * V)) : bool :=
  match get k m with Some _ => true | None => false end.

Definition keys {V} (m : list (string * V)) : list string := map fst m.

Definition values {V} (m : list (string * V)) : list V := map snd m.

End JsMap.

(* ================================================================== *)
(** ** Contexts and commands *)

(** The [ctx] the router builds: [{ ...ctxBase, raw: text, args: argsRaw }]. *)
Record context := {
  ctx_from : string;
  ctx_raw : string;
  ctx_args : string;
  ctx_sendText : string -> string -> M meta_reply;
  ctx_sendAudioLink : string -> string -> M meta_reply;
  ctx_translateText : string -> string -> M (option string);
  ctx_googleTTS : string -> string -> js_error + string
}.

(** The object a handler receives: the dispatcher spreads [ctx] and adds
    [commands].  That is the very Map the module binds as [commands], which
    [help] reads through its closure; a handler only reads the [name] and
    [description] of its values, so it is passed as those pairs, in the
    order of [commands.values()]. *)
Record exec_context := {
  ctx_base :> context;
  ctx_commands : list (string * string)
}.

(** A command: [{ name, description, aliases, execute }].  What [execute]
    resolves to is discarded by its only caller, hence [unit]. *)
Record command := {
  name : string;
  description : string;
  aliases : list string;
  execute : exec_context -> M unit
}.

Definition registry := list (string * command).

(** [commands.values()] as a handler sees it. *)
Definition values_view (cmds : registry) : list (string * string) :=
  map (fun cmd => (name cmd, description cmd)) (JsMap.values cmds).

(** [register(cmd)].  The guards [!cmd], [typeof cmd.execute !== "function"]
    and [Array.isArray(cmd.aliases)] hold by typing; [!cmd.name] remains. *)
Definition register (cmd : command) (cmds : registry) : registry :=
  if negb (Js.truthy (name cmd)) then cmds
  else fold_left (fun m a => JsMap.set a cmd m) (aliases cmd)
                 (JsMap.set (name cmd) cmd cmds).

(** Line feed, and the em dash of two literals.  U+2014 lies outside the
    code units modelled; it is kept as its three UTF-8 bytes and only ever
    occurs in outbound text. *)
Definition NL : string := String Js.LF EmptyString.
Definition EM_DASH : string :=
  String (ascii_of_nat 226) (String (ascii_of_nat 128)
    (String (ascii_of_nat 148) EmptyString)).

(** Discard what an awaited call resolved to. *)
Definition void {A} (m : M A) : M unit := (_ <- m ;; ret tt).

(** *** Requests and responses *)

(** An inbound message: [from], [type] and, for text, [text.body]. *)
Record text_obj := { text_body : option string }.

Record inbound_message := {
  msg_from : string;
  msg_type : option string;
  msg_text : option text_obj
}.

(** The delivery: [body.entry[].changes[].value.messages[]]; a member that
    is absent is [None].  The records are those of a well-formed delivery:
    entries, changes and messages are objects, the arrays are arrays, and
    [from], [type] and [text.body] are strings where they are present.  A
    null element or a member of another type, on which the handler throws a
    TypeError that its outer [catch] answers with 500, lies outside them. *)
Record value_obj := { messages : option (list inbound_message) }.
Record change := { value : option value_obj }.
Record entry_obj := { changes : option (list change) }.
Record webhook_body := { entry : option (list entry_obj) }.

(** [req]: the method, the parsed query string and the parsed body. *)
Record request := {
  method : string;
  query : list (string * string);
  req_body : option webhook_body
}.

(** [req.query[k]]. *)
Definition query_get (q : list (string * string)) (k : string) : option string :=
  JsMap.get k q.

(** [req.query[k] || req.query[alt]]: the parameter under its Meta name or,
    failing that, its short name. *)
Definition param (q : list (string * string)) (k alt : string) : option string :=
  Js.or_else (query_get q k) (query_get q alt).

(** [res.status(code).send(text)]. *)
Record response := { res_code : Z; res_send : string }.

Section Webhook.

Variable env : process_env.
Variable net : network.

(** *** Environment config (lines 33-41) *)

Definition VERIFY_TOKEN : option string := env_WHATSAPP_VERIFY_TOKEN env.
Definition BOT_NAME : string := Js.or_default (env_BOT_NAME env) "BRIAN-XMD".
Definition CREATOR : string := Js.or_default (env_CREATOR env) "Brian 254768116434".
Definition CHANNEL_LINK : string :=
  Js.or_default (env_CHANNEL_LINK env) "https://whatsapp.com/channel/0029VbC173IDDmFVlhcSOZ0Q".
Definition GROUP_LINK : string :=
  Js.or_default (env_GROUP_LINK env) "https://chat.whatsapp.com/JUhD5e6E18t3ABopwuwEMC".

(** *** Helpers (lines 48-103) *)

Definition sendToMeta (p : payload) : M meta_reply :=
  h <- history ;;
  emit (MetaPost p) ;;
  res <- settle (meta_fetch net h p) ;;
  ret {| status := res_status res;
         body := match res_json res with Some j => j | None => "{}" end |}.

Definition sendText (to text : string) : M meta_reply :=
  sendToMeta (TextPayload to text).

Definition sendAudioLink (to audioUrl : string) : M meta_reply :=
  sendToMeta (AudioPayload to audioUrl).

Definition translateText (text target : string) : M (option string) :=
  try_catch
    (h <- history ;;
     emit (LibrePost text target) ;;
     translatedText <- settle (libre_fetch net h text target) ;;
     ret (if Js.truthy_opt translatedText then translatedText else None))
    (fun e => console_error ["translate error"] e ;; ret None).

(** *** The commands (lines 124-224) *)

Definition start_welcome : string :=
  BOT_NAME +++ NL +++ "created by " +++ CREATOR +++ NL +++ NL +++
  "Welcome! I can help with commands. Type /help for available commands.".

Definition start_links : string :=
  "Join our WhatsApp Channel:" +++ NL +++ CHANNEL_LINK +++ NL +++ NL +++
  "Join our WhatsApp Group:" +++ NL +++ GROUP_LINK +++ NL +++ NL +++
  "Tap the link(s) above to join " +++ EM_DASH +++
  " you must accept/join on your device.".

Definition start : command := {|
  name := "start";
  description := "Welcome message + channel/group join links";
  aliases := ["welcome"; "begin"];
  execute := fun c =>
    void (ctx_sendText c (ctx_from c) start_welcome) ;;
    void (ctx_sendText c (ctx_from c) start_links)
|}.

Definition ping : command := {|
  name := "ping";
  description := "Replies with pong";
  aliases := ["p"];
  execute := fun c => void (ctx_sendText c (ctx_from c) "pong")
|}.

(** The loop of [help]: [seen] is the Set, the result the array [list]. *)
Fixpoint help_list (seen : list string) (vals : list (string * string)) : list string :=
  match vals with
  | [] => []
  | (n, d) :: r =>
      if Js.list_includes n seen then help_list seen r
      else ("/" +++ n +++ " " +++ EM_DASH +++ " " +++ d) :: help_list (n :: seen) r
  end.

Definition help : command := {|
  name := "help";
  description := "List available commands";
  aliases := ["h"];
  execute := fun c =>
    let list := help_list [] (ctx_commands c) in
    void (ctx_sendText c (ctx_from c) ("Commands:" +++ NL +++ Js.join NL list))
|}.

Definition translate_usage : string :=
  "Usage: /translate <lang_code>|<text>" +++ NL +++ "Example: /translate id|Hello world".

Definition translate : command := {|
  name := "translate";
  description := "Translate text: /translate <lang_code>|<text>";
  aliases := ["tr"];
  execute := fun c =>
    let args := ctx_args c in
    if negb (Js.truthy args) || negb (Js.includes Js.PIPE args) then
      void (ctx_sendText c (ctx_from c) translate_usage)
    else
      let parts := Js.split Js.PIPE args in
      let lang := hd EmptyString parts in
      let rest := tl parts in
      let txt := Js.trim (Js.join "|" rest) in
      if negb (Js.truthy txt) then
        void (ctx_sendText c (ctx_from c) "No text to translate provided.")
      else
        let target := Js.trim (Js.or_default (Some lang) "en") in
        translated <- ctx_translateText c txt target ;;
        match translated with
        | Some (String a r) =>
            void (ctx_sendText c (ctx_from c)
                    ("Translated (" +++ target +++ "): " +++ String a r))
        | _ => void (ctx_sendText c (ctx_from c) "Translation failed.")
        end
|}.

Definition tts_usage : string :=
  "Usage: /tts <lang_code>|<text>" +++ NL +++ "Example: /tts en|Hello world".

Definition tts : command := {|
  name := "tts";
  description := "Generate TTS: /tts <lang_code>|<text> (sends audio link)";
  aliases := ["voice"];
  execute := fun c =>
    let args := ctx_args c in
    if negb (Js.truthy args) || negb (Js.includes Js.PIPE args) then
      void (ctx_sendText c (ctx_from c) tts_usage)
    else
      let parts := Js.split Js.PIPE args in
      let lang := hd EmptyString parts in
      let rest := tl parts in
      let txt := Js.trim (Js.join "|" rest) in
      if negb (Js.truthy txt) then
        void (ctx_sendText c (ctx_from c) "No text provided.")
      else
        let langCode := Js.trim (Js.or_default (Some lang) "en") in
        try_catch
          (url <- settle (ctx_googleTTS c txt (Js.or_default (Some langCode) "en")) ;;
           void (ctx_sendAudioLink c (ctx_from c) url))
          (fun e =>
             console_error ["TTS error"] e ;;
             void (ctx_sendText c (ctx_from c) "TTS failed."))
|}.

Definition echo : command := {|
  name := "echo";
  description := "Echo back the text";
  aliases := [];
  execute := fun c =>
    let toEcho :=
      Js.or_default (Js.or_else (Some (ctx_args c)) (Some (ctx_raw c))) "" in
    void (ctx_sendText c (ctx_from c) ("Echo: " +++ toEcho))
|}.

(** The registration sequence of the module, in source order. *)
Definition startup : list command := [start; ping; help; translate; tts; echo].

(** The Map [commands] once the module is loaded. *)
Definition commands : registry :=
  fold_left (fun m cmd => register cmd m) startup [].

(** *** Dispatcher (lines 228-249) *)

(** The object handed to the handler:
    [{ ...ctx, sendText: ctx.sendText, ..., commands }]. *)
Definition exec_ctx (cmds : registry) (ctx : context) : exec_context :=
  {| ctx_base := ctx; ctx_commands := values_view cmds |}.

Definition error_notice (err : js_error) : string :=
  "Command error: " +++ Js.or_default (message err) "internal error".

Definition dispatchCommandByName (cmds : registry) (name : option string)
    (ctx : context) : M bool :=
  match name with
  | Some (String a r) =>
      let name := String a r in
      match JsMap.get name cmds with
      | None => ret false
      | Some cmd =>
          try_catch
            (execute cmd (exec_ctx cmds ctx))
            (fun err =>
               console_error ["Command execution error"; name] err ;;
               try_catch
                 (void (ctx_sendText ctx (ctx_from ctx) (error_notice err)))
                 (fun _ => ret tt)) ;;
          ret true
      end
  | _ => ret false
  end.

(** *** The exported handler (lines 253-349) *)

Definition onboarding_triggers : list string :=
  ["/start"; "start"; "hi"; "hello"; "hey"].

Definition fallback_welcome : string :=
  BOT_NAME +++ NL +++ "created by " +++ CREATOR +++ NL +++ NL +++
  "Welcome! Type /help for commands.".

Definition fallback_links : string :=
  "Join our Channel: " +++ CHANNEL_LINK +++ NL +++ "Join our Group: " +++ GROUP_LINK.

Definition default_reply (text : string) : string :=
  "You said: " +++ text +++ NL +++ "Type /help for available commands.".

Definition non_text_notice : string :=
  "Received non-text message. This demo handles text commands only. Type /help for commands.".

(** [{ ...ctxBase, raw: text, args: argsRaw }]. *)
Definition make_ctx (from text argsRaw : string) : context := {|
  ctx_from := from;
  ctx_raw := text;
  ctx_args := argsRaw;
  ctx_sendText := sendText;
  ctx_sendAudioLink := sendAudioLink;
  ctx_translateText := translateText;
  ctx_googleTTS := getAudioUrl net
|}.

(** The command word and argument string of lines 312-323. *)
Definition parse_command (cmds : registry) (tokens : list string)
    : option string * string :=
  let first := first_of tokens in
  if Js.startsWith "/" first || Js.startsWith "!" first then
    (Some (Js.toLowerCase (Js.slice1 first)), args_of tokens)
  else
    let maybe := Js.toLowerCase first in
    if JsMap.has maybe cmds then (Some maybe, args_of tokens)
    else (None, EmptyString).

(** [cmdName && commands.has(cmdName)]. *)
Definition is_command (cmds : registry) (cmdName : option string) : bool :=
  match cmdName with
  | Some (String a r) => JsMap.has (String a r) cmds
  | _ => false
  end.

(** The branch taken for a text message with a non-empty body
    (lines 293-331). *)
Definition handle_text (cmds : registry) (from body : string) : M unit :=
  let text := Js.trim body in
  let tokens := tokens_of text in
  let first := first_of tokens in
  let lcFirst := Js.toLowerCase first in
  if Js.list_includes lcFirst onboarding_triggers then
    let argsRaw := args_of tokens in
    let ctx := make_ctx from text argsRaw in
    did <- dispatchCommandByName cmds (Some "start") ctx ;;
    if negb did then
      void (sendText from fallback_welcome) ;;
      void (sendText from fallback_links)
    else ret tt
  else
    let '(cmdName, argsRaw) := parse_command cmds tokens in
    if is_command cmds cmdName then
      let ctx := make_ctx from text argsRaw in
      void (dispatchCommandByName cmds cmdName ctx)
    else
      void (sendText from (default_reply text)).

(** [type === "text" && message.text && message.text.body]. *)
Definition text_body_of (m : inbound_message) : option string :=
  match msg_type m with
  | Some ty =>
      if String.eqb ty "text" then
        match msg_text m with
        | Some t =>
            match text_body t with
            | Some (String a r) => Some (String a r)
            | _ => None
            end
        | None => None
        end
      else None
  | None => None
  end.

(** The body of the innermost loop (lines 280-335). *)
Definition handle_message (cmds : registry) (m : inbound_message) : M unit :=
  let from := msg_from m in
  match text_body_of m with
  | Some body => handle_text cmds from body
  | None => void (sendText from non_text_notice)
  end.

Definition or_empty {A} (xs : option (list A)) : list A :=
  match xs with Some l => l | None => [] end.

(** The messages of a change: [(change.value || {}).messages || []]. *)
Definition messages_of (ch : change) : list inbound_message :=
  match value ch with
  | Some v => or_empty (messages v)
  | None => []
  end.

Definition handle_get (query : list (string * string)) : response :=
  let mode := param query "hub.mode" "mode" in
  let token := param query "hub.verify_token" "verify_token" in
  let challenge := param query "hub.challenge" "challenge" in
  if Js.truthy_opt mode && Js.strict_eq token VERIFY_TOKEN then
    {| res_code := 200; res_send := Js.or_default challenge "OK" |}
  else
    {| res_code := 403; res_send := "Invalid verify token" |}.

Definition handle_post (cmds : registry) (body : option webhook_body) : M response :=
  match body with
  | Some {| entry := Some entries |} =>
      for_of entries (fun e =>
        for_of (or_empty (changes e)) (fun ch =>
          for_of (messages_of ch) (handle_message cmds))) ;;
      ret {| res_code := 200; res_send := "EVENT_RECEIVED" |}
  | _ => ret {| res_code := 400; res_send := "No valid body" |}
  end.

(** [module.exports], for the registry [cmds] bound to [commands]. *)
Definition module_exports (cmds : registry) (req : request) : M response :=
  try_catch
    (if String.eqb (method req) "GET" then ret (handle_get (query req))
     else if String.eqb (method req) "POST" then handle_post cmds (req_body req)
     else ret {| res_code := 405; res_send := "Method Not Allowed" |})
    (fun err =>
       console_error ["Webhook handler error:"] err ;;
       ret {| res_code := 500; res_send := "Server error" |}).

End Webhook.

(* ================================================================== *)
(** ** Vocabulary of the statements *)

(** Every character is white space. *)
Fixpoint all_space (s : string) : bool :=
  match s with
  | EmptyString => true
  | String c r => Js.is_space c && all_space r
  end.

(** The first, resp. last, character is white space. *)
Definition starts_with_space (s : string) : bool :=
  match s with
  | EmptyString => false
  | String c _ => Js.is_space c
  end.

Fixpoint ends_with_space (s : string) : bool :=
  match s with
  | EmptyString => false
  | String c EmptyString => Js.is_space c
  | String _ r => ends_with_space r
  end.

(** A token: not empty, and without the space character. *)
Definition is_token (t : string) : Prop :=
  t <> EmptyString /\ Js.includes Js.SPACE t = false.

(** The string without the occurrences of one character. *)
Fixpoint remove_char (c : ascii) (s : string) : string :=
  match s with
  | EmptyString => EmptyString
  | String d r => if Ascii.eqb d c then remove_char c r else String d (remove_char c r)
  end.

(** What follows the first occurrence of a character; empty without one. *)
Fixpoint after_first (c : ascii) (s : string) : string :=
  match s with
  | EmptyString => EmptyString
  | String d r => if Ascii.eqb d c then r else after_first c r
  end.

(** What precedes the first occurrence of a character. *)
Fixpoint before_first (c : ascii) (s : string) : string :=
  match s with
  | EmptyString => EmptyString
  | String d r => if Ascii.eqb d c then EmptyString else String d (before_first c r)
  end.

(** [needle] occurs in [hay]. *)
Fixpoint occurs_in (needle hay : string) : bool :=
  String.prefix needle hay ||
  match hay with
  | EmptyString => false
  | String _ r => occurs_in needle r
  end.

(** The texts handed to the Graph API as text messages, in order. *)
Fixpoint sent_texts (h : trace) : list (string * string) :=
  match h with
  | [] => []
  | MetaPost (TextPayload to b) :: r => (to, b) :: sent_texts r
  | _ :: r => sent_texts r
  end.

(** The calls made to the translation collaborator, in order. *)
Fixpoint translation_calls (h : trace) : list (string * string) :=
  match h with
  | [] => []
  | LibrePost q t :: r => (q, t) :: translation_calls r
  | _ :: r => translation_calls r
  end.

(** The trace once a failure of the handler has been logged and the notice
    has been attempted through [ctx.sendText]. *)
Definition after_notice (ctx : context) (n : string) (e : js_error) (h1 : trace) : trace :=
  snd (ctx_sendText ctx (ctx_from ctx) (error_notice e)
         (h1 ++ [ConsoleError ["Command execution error"; n] e])).

(** A text message from [from] with body [b]. *)
Definition text_message (from b : string) : inbound_message := {|
  msg_from := from;
  msg_type := Some "text";
  msg_text := Some {| text_body := Some b |}
|}.

(** The keys a command is registered under. *)
Definition keys_of (cmd : command) : list string := name cmd :: aliases cmd.

(* ================================================================== *)
(** ** Sample deployments, for the examples below *)

Module Sample.

Definition env : process_env := {|
  env_WHATSAPP_VERIFY_TOKEN := Some "s3cret";
  env_BOT_NAME := None;
  env_CREATOR := None;
  env_CHANNEL_LINK := None;
  env_GROUP_LINK := None
|}.

(** The same deployment with WHATSAPP_VERIFY_TOKEN left unset. *)
Definition env_unset : process_env := {|
  env_WHATSAPP_VERIFY_TOKEN := None;
  env_BOT_NAME := None;
  env_CREATOR := None;
  env_CHANNEL_LINK := None;
  env_GROUP_LINK := None
|}.

Definition accepted : http_response :=
  {| res_status := 200%Z; res_json := Some "{}" |}.

Definition fetch_failed : js_error := {| message := Some "fetch failed" |}.

(** Every call answers. *)
Definition net_up : network := {|
  meta_fetch := fun _ _ => inr accepted;
  libre_fetch := fun _ _ _ => inr (Some "Halo dunia");
  getAudioUrl := fun txt lang => inr ("https://translate.google.com/translate_tts?tl=" +++ lang)
|}.

(** The first call of the request to the Graph API is rejected, the later
    ones answer. *)
Definition net_flaky : network := {|
  meta_fetch := fun h _ => match h with [] => inl fetch_failed | _ => inr accepted end;
  libre_fetch := fun _ _ _ => inr (Some "Halo dunia");
  getAudioUrl := fun txt lang => inr ("https://translate.google.com/translate_tts?tl=" +++ lang)
|}.

(** The translation service is unreachable. *)
Definition net_no_libre : network := {|
  meta_fetch := fun _ _ => inr accepted;
  libre_fetch := fun _ _ _ => inl fetch_failed;
  getAudioUrl := fun txt lang => inr ("https://translate.google.com/translate_tts?tl=" +++ lang)
|}.

Definition sender : string := "254700000000".

Definition image_message : inbound_message := {|
  msg_from := sender;
  msg_type := Some "image";
  msg_text := None
|}.

End Sample.

(* ================================================================== *)
(** ** Further vocabulary: routing, deliveries, recipients *)

(** The name a first token stands for (lines 314-318): the token without
    its [/] or [!] and lower-cased, or the bare token lower-cased. *)
Definition command_word (first : string) : string :=
  if Js.startsWith "/" first || Js.startsWith "!" first
  then Js.toLowerCase (Js.slice1 first)
  else Js.toLowerCase first.

(** One line of the listing of [help]. *)
Definition help_line (cmd : command) : string :=
  "/" +++ name cmd +++ " " +++ EM_DASH +++ " " +++ description cmd.

(** The entries one [register(cmd)] adds to a Map without its keys. *)
Definition entries_for (cmd : command) : registry :=
  map (fun k => (k, cmd)) (keys_of cmd).

(** The messages of a delivery in document order: entries, then changes,
    then messages. *)
Definition messages_in (entries : list entry_obj) : list inbound_message :=
  flat_map (fun e => flat_map messages_of (or_empty (changes e))) entries.

(** A POST request carrying [entries]. *)
Definition post_of (q : list (string * string)) (entries : list entry_obj) : request := {|
  method := "POST";
  query := q;
  req_body := Some {| entry := Some entries |}
|}.

(** A delivery of one entry with one change holding [msgs]. *)
Definition delivery (msgs : list inbound_message) : list entry_obj :=
  [ {| changes := Some [ {| value := Some {| messages := Some msgs |} |} ] |} ].

(** The message goes through the dispatcher: it is a text message whose
    first token is an onboarding trigger or names a command. *)
Definition goes_to_dispatcher (cmds : registry) (m : inbound_message) : bool :=
  match text_body_of m with
  | Some b =>
      let first := first_of (tokenize b) in
      Js.list_includes (Js.toLowerCase first) onboarding_triggers
      || (Js.truthy (command_word first) && JsMap.has (command_word first) cmds)
  | None => false
  end.

(** The recipient of a call to the Graph API. *)
Definition recipient (p : payload) : string :=
  match p with
  | TextPayload to _ => to
  | AudioPayload to _ => to
  end.

(** The event does not send anything to anybody but [from]. *)
Definition only_to (from : string) (ev : event) : Prop :=
  match ev with
  | MetaPost p => recipient p = from
  | _ => True
  end.

(** The event does not send anything to anybody outside [senders]. *)
Definition only_to_any (senders : list string) (ev : event) : Prop :=
  match ev with
  | MetaPost p => In (recipient p) senders
  | _ => True
  end.

(** The computation only appends to the trace, and what it appends
    satisfies [P]. *)
Definition appends {A} (P : event -> Prop) (m : M A) : Prop :=
  forall h, exists ext, snd (m h) = h ++ ext /\ Forall P ext.

(** The audio links handed to the Graph API, in order. *)
Fixpoint sent_audio (h : trace) : list (string * string) :=
  match h with
  | [] => []
  | MetaPost (AudioPayload to l) :: r => (to, l) :: sent_audio r
  | _ :: r => sent_audio r
  end.

Module Scenario.

(** The Graph API answers every call, with 401 and a body that is no JSON. *)
Definition net_unauthorized : network := {|
  meta_fetch := fun _ _ => inr {| res_status := 401%Z; res_json := None |};
  libre_fetch := fun _ _ _ => inr None;
  getAudioUrl := fun txt lang => inr ("https://translate.google.com/translate_tts?tl=" +++ lang)
|}.

(** Nothing can be reached, and the TTS library throws. *)
Definition net_down : network := {|
  meta_fetch := fun _ _ => inl Sample.fetch_failed;
  libre_fetch := fun _ _ _ => inl Sample.fetch_failed;
  getAudioUrl := fun _ _ => inl {| message := Some "text too long" |}
|}.

(** The Graph API answers, the TTS library throws. *)
Definition net_no_tts : network := {|
  meta_fetch := fun _ _ => inr Sample.accepted;
  libre_fetch := fun _ _ _ => inr (Some "Halo dunia");
  getAudioUrl := fun _ _ => inl {| message := Some "text too long" |}
|}.

(** A command registered under a colliding alias. *)
Definition pong : command := {|
  name := "pong";
  description := "Replies with ping";
  aliases := ["p"];
  execute := fun c => void (ctx_sendText c (ctx_from c) "ping")
|}.

(** A command with the empty string among its aliases. *)
Definition quiet : command := {|
  name := "quiet";
  description := "Says nothing";
  aliases := [EmptyString];
  execute := fun _ => ret tt
|}.

End Scenario.

(* ================================================================== *)
(** ** Facts about the string primitives *)

Section StringFacts.

Lemma truthy_true_iff (s : string) : Js.truthy s = true <-> s <> EmptyString.
Proof.
  destruct s; simpl; split; intro H; try discriminate; try reflexivity.
  now elim H.
Qed.

Lemma truthy_false_iff (s : string) : Js.truthy s = false <-> s = EmptyString.
Proof.
  destruct s; simpl; split; intro H; try discriminate; reflexivity.
Qed.

Lemma or_default_some (s d : string) :
  Js.or_default (Some s) d = if Js.truthy s then s else d.
Proof. now destruct s. Qed.

Lemma append_empty_r (s : string) : s +++ EmptyString = s.
Proof. induction s; simpl; congruence. Qed.

Lemma append_assoc (a b c : string) : (a +++ b) +++ c = a +++ b +++ c.
Proof. induction a; simpl; congruence. Qed.

(** *** [trim] *)

Lemma trimStart_split (s : string) :
  exists l, s = l +++ Js.trimStart s /\ all_space l = true.
Proof.
  induction s as [|c r [l [Hl Hs]]]; simpl.
  - now exists EmptyString.
  - destruct (Js.is_space c) eqn:Hc.
    + exists (String c l); simpl. rewrite Hc, Hs. split; [congruence | reflexivity].
    + now exists EmptyString.
Qed.

Lemma trimStart_head (s : string) : starts_with_space (Js.trimStart s) = false.
Proof.
  induction s as [|c r IH]; simpl; [reflexivity|].
  destruct (Js.is_space c) eqn:Hc; [exact IH | simpl; exact Hc].
Qed.

Lemma trimEnd_split (s : string) :
  exists r, s = Js.trimEnd s +++ r /\ all_space r = true.
Proof.
  induction s as [|c s [r [Hr Hs]]]; simpl.
  - now exists EmptyString.
  - destruct (Js.trimEnd s) as [|c' s'] eqn:Ht.
    + destruct (Js.is_space c) eqn:Hc.
      * exists (String c r); simpl in *. rewrite Hc, Hs. split; [congruence | reflexivity].
      * exists r. simpl in *. split; [congruence | assumption].
    + exists r. simpl in *. split; [congruence | assumption].
Qed.

Lemma trimEnd_last (s : string) : ends_with_space (Js.trimEnd s) = false.
Proof.
  induction s as [|c s IH]; simpl; [reflexivity|].
  destruct (Js.trimEnd s) as [|c' s'] eqn:Ht.
  - destruct (Js.is_space c) eqn:Hc; simpl; [reflexivity | exact Hc].
  - exact IH.
Qed.

Lemma trimEnd_head (s : string) :
  starts_with_space s = false -> starts_with_space (Js.trimEnd s) = false.
Proof.
  destruct s as [|c s]; simpl; [reflexivity|]. intro Hc.
  destruct (Js.trimEnd s); [rewrite Hc|]; simpl; try exact Hc; reflexivity.
Qed.

Lemma trimEnd_all_space (s : string) :
  all_space s = true -> Js.trimEnd s = EmptyString.
Proof.
  induction s as [|c s IH]; simpl; [reflexivity|].
  intro H. apply andb_true_iff in H as [Hc Hs].
  now rewrite (IH Hs), Hc.
Qed.

Lemma trimStart_all_space (s : string) :
  all_space s = true -> Js.trimStart s = EmptyString.
Proof.
  induction s as [|c s IH]; simpl; [reflexivity|].
  intro H. apply andb_true_iff in H as [Hc Hs]. rewrite Hc. auto.
Qed.

Lemma all_space_app (a b : string) :
  all_space (a +++ b) = all_space a && all_space b.
Proof.
  induction a as [|c a IH]; simpl; [reflexivity|].
  now rewrite IH, andb_assoc.
Qed.

(** [trim] strips white space at both ends and nothing else. *)
Lemma trim_spec (s : string) :
  (exists l r, s = l +++ Js.trim s +++ r /\ all_space l = true /\ all_space r = true)
  /\ starts_with_space (Js.trim s) = false
  /\ ends_with_space (Js.trim s) = false.
Proof.
  unfold Js.trim. split; [|split].
  - destruct (trimStart_split s) as [l [Hl Hls]].
    destruct (trimEnd_split (Js.trimStart s)) as [r [Hr Hrs]].
    exists l, r. split; [|split]; try assumption.
    rewrite <- Hr. exact Hl.
  - apply trimEnd_head, trimStart_head.
  - apply trimEnd_last.
Qed.

(** A body is empty after trimming exactly when it is all white space. *)
Lemma trim_empty_iff (s : string) :
  Js.trim s = EmptyString <-> all_space s = true.
Proof.
  split; intro H.
  - destruct (trim_spec s) as [[l [r [Hs [Hl Hr]]]] _].
    rewrite H in Hs. simpl in Hs. rewrite Hs, all_space_app, Hl, Hr. reflexivity.
  - unfold Js.trim. now rewrite (trimStart_all_space s H).
Qed.

(** *** [split] and [join] *)

Lemma split_not_nil (sep : ascii) (s : string) : Js.split sep s <> [].
Proof.
  destruct s as [|c s]; simpl; [discriminate|].
  destruct (Ascii.eqb c sep); [discriminate|].
  destruct (Js.split sep s); discriminate.
Qed.

(** No piece contains the separator. *)
Lemma split_pieces (sep : ascii) (s : string) :
  Forall (fun p => Js.includes sep p = false) (Js.split sep s).
Proof.
  induction s as [|c s IH]; simpl.
  - constructor; [reflexivity | constructor].
  - destruct (Ascii.eqb c sep) eqn:Hc.
    + constructor; [reflexivity | exact IH].
    + destruct (Js.split sep s) as [|p ps]; inversion IH; subst;
        constructor; simpl; try rewrite Hc; simpl; auto.
Qed.

(** Joining the pieces with the separator gives the string back. *)
Lemma join_split (sep : ascii) (s : string) :
  Js.join (String sep EmptyString) (Js.split sep s) = s.
Proof.
  unfold Js.join. induction s as [|c s IH]; simpl; [reflexivity|].
  destruct (Ascii.eqb c sep) eqn:Hc.
  - apply Ascii.eqb_eq in Hc. subst c.
    pose proof (split_not_nil sep s) as Hn.
    destruct (Js.split sep s) as [|p ps]; [now elim Hn|].
    simpl in *. now rewrite IH.
  - pose proof (split_not_nil sep s) as Hn.
    destruct (Js.split sep s) as [|p ps]; [now elim Hn|].
    destruct ps; simpl in *; now rewrite <- IH.
Qed.

(** Splitting distributes over a separator in the middle. *)
Lemma split_app (sep : ascii) (a b : string) :
  Js.split sep (a +++ String sep b) = Js.split sep a ++ Js.split sep b.
Proof.
  induction a as [|c a IH]; simpl.
  - now rewrite Ascii.eqb_refl.
  - destruct (Ascii.eqb c sep); rewrite IH; [reflexivity|].
    pose proof (split_not_nil sep a) as Hn.
    destruct (Js.split sep a); [now elim Hn | reflexivity].
Qed.

Lemma split_no_sep (sep : ascii) (s : string) :
  Js.includes sep s = false -> Js.split sep s = [s].
Proof.
  induction s as [|c s IH]; simpl; [reflexivity|].
  intro H. apply orb_false_iff in H as [Hc Hs].
  now rewrite Hc, (IH Hs).
Qed.

(** The head of the pieces is what precedes the first separator, and the
    rest joined is what follows it. *)
Lemma split_head (sep : ascii) (s : string) :
  hd EmptyString (Js.split sep s) = before_first sep s.
Proof.
  induction s as [|c s IH]; simpl; [reflexivity|].
  destruct (Ascii.eqb c sep); [reflexivity|].
  destruct (Js.split sep s); simpl in *; congruence.
Qed.

Lemma split_tail_join (sep : ascii) (s : string) :
  Js.join (String sep EmptyString) (tl (Js.split sep s)) = after_first sep s.
Proof.
  induction s as [|c s IH]; simpl; [reflexivity|].
  destruct (Ascii.eqb c sep).
  - apply join_split.
  - destruct (Js.split sep s); simpl in *; exact IH.
Qed.

Lemma after_first_no_sep (sep : ascii) (s : string) :
  Js.includes sep s = false -> after_first sep s = EmptyString.
Proof.
  induction s as [|c s IH]; simpl; [reflexivity|].
  intro H. apply orb_false_iff in H as [Hc Hs]. now rewrite Hc, IH.
Qed.

End StringFacts.

(* ================================================================== *)
(** ** Tokenizer *)

Section TokenizerFacts.

Lemma tokens_of_empty : tokens_of EmptyString = [].
Proof. reflexivity. Qed.

(** A word without a space is its own single token. *)
Lemma tokens_of_word (w : string) :
  is_token w -> tokens_of w = [w].
Proof.
  intros [Hne Hsp]. unfold tokens_of, Js.filter_Boolean.
  rewrite (split_no_sep _ _ Hsp). simpl.
  apply truthy_true_iff in Hne. now rewrite Hne.
Qed.

(** A space separates: the tokens on its left, then those on its right. *)
Lemma tokens_of_space (a b : string) :
  tokens_of (a +++ String Js.SPACE b) = tokens_of a ++ tokens_of b.
Proof.
  unfold tokens_of, Js.filter_Boolean.
  now rewrite split_app, filter_app.
Qed.

(** Hence any run of spaces separates like one, and spaces at the ends
    yield no token. *)
Lemma tokens_of_leading_space (b : string) :
  tokens_of (String Js.SPACE b) = tokens_of b.
Proof. exact (tokens_of_space EmptyString b). Qed.

Lemma tokens_of_trailing_space (a : string) :
  tokens_of (a +++ String Js.SPACE EmptyString) = tokens_of a.
Proof. rewrite tokens_of_space. simpl. apply app_nil_r. Qed.

Lemma tokens_are_tokens (text : string) : Forall is_token (tokens_of text).
Proof.
  unfold tokens_of, Js.filter_Boolean.
  apply Forall_forall. intros t Ht.
  apply filter_In in Ht as [Hin Htr]. split.
  - now apply truthy_true_iff.
  - pose proof (split_pieces Js.SPACE text) as Hp.
    rewrite Forall_forall in Hp. now apply Hp.
Qed.

(** The tokens, in order, are the text without its spaces. *)
Lemma tokens_concat (text : string) :
  String.concat EmptyString (tokens_of text) = remove_char Js.SPACE text.
Proof.
  unfold tokens_of, Js.filter_Boolean.
  induction text as [|c s IH]; simpl; [reflexivity|].
  destruct (Ascii.eqb c Js.SPACE) eqn:Hc; simpl.
  - exact IH.
  - pose proof (split_not_nil Js.SPACE s) as Hn.
    destruct (Js.split Js.SPACE s) as [|p ps]; [now elim Hn|].
    simpl in *. rewrite <- IH.
    destruct (Js.truthy p) eqn:Hp.
    + destruct (filter Js.truthy ps); reflexivity.
    + apply truthy_false_iff in Hp. subst p.
      destruct (filter Js.truthy ps); reflexivity.
Qed.

(** The first token is [""] exactly when there is none. *)
Lemma first_of_empty_iff (text : string) :
  first_of (tokens_of text) = EmptyString <-> tokens_of text = [].
Proof.
  pose proof (tokens_are_tokens text) as H.
  destruct (tokens_of text) as [|t ts]; simpl; split; intro E;
    try reflexivity; try discriminate.
  inversion H as [|? ? [Hne _] _]; subst. now elim Hne.
Qed.

Lemma tokens_of_all_space (body : string) :
  all_space body = true -> tokenize body = [].
Proof.
  intro H. unfold tokenize, text_of.
  apply trim_empty_iff in H. now rewrite H.
Qed.

End TokenizerFacts.

(** The example of the specification. *)
Example tokenize_tr :
  tokenize "  /tr  id|Hello   world  " = ["/tr"; "id|Hello"; "world"].
Proof. reflexivity. Qed.

(** A tab does not separate. *)
Example tokenize_tab :
  tokenize ("/echo" +++ String Js.TAB "hi") = ["/echo" +++ String Js.TAB "hi"].
Proof. reflexivity. Qed.

(** C3, as stated, fails: tabs and newlines inside the text do not separate
    tokens.  The message [/echo<TAB>hi] is one token, so is [/ping<LF>now],
    although both contain white space that is not at the ends. *)
Lemma C3_tab_newline_do_not_split :
  tokenize ("/echo" +++ String Js.TAB "hi") = ["/echo" +++ String Js.TAB "hi"]
  /\ tokenize ("/ping" +++ String Js.LF "now") = ["/ping" +++ String Js.LF "now"]
  /\ Js.is_space Js.TAB = true /\ Js.is_space Js.LF = true
  /\ first_of (tokenize ("/echo" +++ String Js.TAB "hi")) <> "/echo".
Proof.
  repeat split; try reflexivity. discriminate.
Qed.

(** C3 (amended): for every raw text, tokenization trims leading and trailing
    white space and splits on runs of the space character only: the tokens
    are those of the trimmed text; they are non-empty, contain no space, and
    in order make up the trimmed text without its spaces; a space separates
    the tokens on its left from those on its right, and a non-empty word
    without a space, whatever tabs and newlines it holds, is one token; the
    argument string is the tokens from index 1 on, joined with single
    spaces.  Tokenizing ["  /tr  id|Hello   world  "] yields first token
    [/tr] and argument string [id|Hello world]. *)
Theorem C3_tokenize_spaces (raw : string) :
  let text := text_of raw in
  let tokens := tokenize raw in
  (exists l r, raw = l +++ text +++ r /\ all_space l = true /\ all_space r = true)
  /\ starts_with_space text = false
  /\ ends_with_space text = false
  /\ tokens = tokens_of text
  /\ Forall is_token tokens
  /\ String.concat EmptyString tokens = remove_char Js.SPACE text
  /\ (forall a b, tokens_of (a +++ String Js.SPACE b) = tokens_of a ++ tokens_of b)
  /\ (forall w, is_token w -> tokens_of w = [w])
  /\ tokens_of EmptyString = []
  /\ args_of tokens = String.concat " " (tl tokens)
  /\ first_of (tokenize "  /tr  id|Hello   world  ") = "/tr"
  /\ args_of (tokenize "  /tr  id|Hello   world  ") = "id|Hello world".
Proof.
  intros text tokens. subst text tokens. unfold tokenize, text_of.
  destruct (trim_spec raw) as [Hsplit [Hhead Hlast]].
  split; [exact Hsplit|]. split; [exact Hhead|]. split; [exact Hlast|].
  split; [reflexivity|]. split; [apply tokens_are_tokens|].
  split; [apply tokens_concat|]. split; [apply tokens_of_space|].
  split; [apply tokens_of_word|].
  repeat split.
Qed.

(** C3 (amended) at work: a word with a tab inside is one token. *)
Lemma C3_tokenize_spaces_sample :
  is_token ("/echo" +++ String Js.TAB "hi")
  /\ tokens_of ("/echo" +++ String Js.TAB "hi") = ["/echo" +++ String Js.TAB "hi"].
Proof.
  assert (Hw : is_token ("/echo" +++ String Js.TAB "hi"))
    by (split; [discriminate | reflexivity]).
  split; [exact Hw|].
  destruct (C3_tokenize_spaces EmptyString) as [_ [_ [_ [_ [_ [_ [_ [Hword _]]]]]]]].
  exact (Hword _ Hw).
Defined.

(* ================================================================== *)
(** ** The helpers: what a send and a translation leave in the trace *)

Section HelperFacts.

Variable net : network.

(** A send makes exactly one call to the Graph API, whatever its outcome. *)
Lemma sendToMeta_run (p : payload) (h : trace) :
  sendToMeta net p h =
    (match meta_fetch net h p with
     | inl e => Throw e
     | inr res => Return {| status := res_status res;
                            body := match res_json res with
                                    | Some j => j
                                    | None => "{}"
                                    end |}
     end, h ++ [MetaPost p]).
Proof.
  unfold sendToMeta, bind, history, emit, settle, ret, throw.
  destruct (meta_fetch net h p); reflexivity.
Qed.

Lemma void_sendText_run (to text : string) (h : trace) :
  void (sendText net to text) h =
    (match meta_fetch net h (TextPayload to text) with
     | inl e => Throw e
     | inr _ => Return tt
     end, h ++ [MetaPost (TextPayload to text)]).
Proof.
  unfold void, sendText, bind. rewrite sendToMeta_run.
  destruct (meta_fetch net h (TextPayload to text)); reflexivity.
Qed.

Lemma void_sendText_trace (to text : string) (h : trace) :
  snd (void (sendText net to text) h) = h ++ [MetaPost (TextPayload to text)].
Proof. now rewrite void_sendText_run. Qed.

(** [translateText] never throws: a failure of the call is logged and
    becomes [null], and so does an absent or empty [translatedText]. *)
Lemma translateText_run (text target : string) (h : trace) :
  translateText net text target h =
    match libre_fetch net h text target with
    | inl e => (Return None,
                h ++ [LibrePost text target; ConsoleError ["translate error"] e])
    | inr (Some (String a r)) => (Return (Some (String a r)), h ++ [LibrePost text target])
    | inr _ => (Return None, h ++ [LibrePost text target])
    end.
Proof.
  unfold translateText, try_catch, bind, history, emit, settle, ret, throw,
    console_error.
  destruct (libre_fetch net h text target) as [e|[[|a r]|]]; simpl;
    try reflexivity.
  now rewrite <- app_assoc.
Qed.

End HelperFacts.

(* ================================================================== *)
(** ** Registry *)

Section RegistryFacts.

Context {V : Type}.

Lemma get_set_same (k : string) (v : V) (m : list (string * V)) :
  JsMap.get k (JsMap.set k v m) = Some v.
Proof.
  induction m as [|[k' v'] m IH]; simpl.
  - now rewrite String.eqb_refl.
  - destruct (String.eqb k' k) eqn:E; simpl.
    + now rewrite String.eqb_refl.
    + now rewrite E.
Qed.

Lemma get_set_other (k k0 : string) (v : V) (m : list (string * V)) :
  k0 <> k -> JsMap.get k0 (JsMap.set k v m) = JsMap.get k0 m.
Proof.
  intro Hne. induction m as [|[k' v'] m IH]; simpl.
  - destruct (String.eqb k k0) eqn:E; [|reflexivity].
    apply String.eqb_eq in E. now elim Hne.
  - destruct (String.eqb k' k) eqn:E; simpl.
    + apply String.eqb_eq in E. subst k'.
      destruct (String.eqb k k0) eqn:E0; [|reflexivity].
      apply String.eqb_eq in E0. now elim Hne.
    + now rewrite IH.
Qed.

(** Setting a key keeps the keys already there, in their order, and adds a
    new one at the end. *)
Lemma keys_set (k : string) (v : V) (m : list (string * V)) :
  JsMap.keys (JsMap.set k v m) =
    if JsMap.has k m then JsMap.keys m else JsMap.keys m ++ [k].
Proof.
  unfold JsMap.has. induction m as [|[k' v'] m IH]; simpl; [reflexivity|].
  destruct (String.eqb k' k) eqn:E; simpl.
  - apply String.eqb_eq in E. now subst.
  - rewrite IH. now destruct (JsMap.get k m).
Qed.

End RegistryFacts.

Section RegisterFacts.

Lemma get_set_aliases (cmd : command) (al : list string) (m : registry) (k : string) :
  JsMap.get k (fold_left (fun m a => JsMap.set a cmd m) al m) =
    if Js.list_includes k al then Some cmd else JsMap.get k m.
Proof.
  revert m. induction al as [|a al IH]; intro m; simpl; [reflexivity|].
  rewrite IH. destruct (Js.list_includes k al) eqn:Hin.
  - now rewrite orb_true_r.
  - rewrite orb_false_r. destruct (String.eqb k a) eqn:E.
    + apply String.eqb_eq in E. subst. apply get_set_same.
    + apply String.eqb_neq in E. now apply get_set_other.
Qed.

(** Right after [register(cmd)], the canonical name and every alias of [cmd]
    map to [cmd]; the other keys are untouched (last write wins). *)
Lemma register_get (cmd : command) (m : registry) (k : string) :
  name cmd <> EmptyString ->
  JsMap.get k (register cmd m) =
    if Js.list_includes k (keys_of cmd) then Some cmd else JsMap.get k m.
Proof.
  intro Hn. unfold register, keys_of.
  apply truthy_true_iff in Hn. rewrite Hn. simpl.
  rewrite get_set_aliases.
  destruct (Js.list_includes k (aliases cmd)); [now rewrite orb_true_r|].
  rewrite orb_false_r. destruct (String.eqb k (name cmd)) eqn:E.
  - apply String.eqb_eq in E. subst. apply get_set_same.
  - apply String.eqb_neq in E. now apply get_set_other.
Qed.

(** A descriptor without a name is not registered. *)
Lemma register_nameless (cmd : command) (m : registry) :
  name cmd = EmptyString -> register cmd m = m.
Proof. intro Hn. unfold register. now rewrite Hn. Qed.

End RegisterFacts.

(* ================================================================== *)
(** ** The registry after startup *)

Section StartupFacts.

Variable env : process_env.

Lemma commands_keys :
  JsMap.keys (commands env) =
    ["start"; "welcome"; "begin"; "ping"; "p"; "help"; "h";
     "translate"; "tr"; "tts"; "voice"; "echo"].
Proof. reflexivity. Qed.

Lemma commands_entries :
  commands env =
    [("start", start env); ("welcome", start env); ("begin", start env);
     ("ping", ping); ("p", ping); ("help", help); ("h", help);
     ("translate", translate); ("tr", translate);
     ("tts", tts); ("voice", tts); ("echo", echo)].
Proof. reflexivity. Qed.

(** No command is registered under the empty name. *)
Lemma commands_key_not_empty (k : string) (cmd : command) :
  JsMap.get k (commands env) = Some cmd -> k <> EmptyString.
Proof. intros H E. subst k. discriminate H. Qed.

Lemma commands_has_start : JsMap.get "start" (commands env) = Some (start env).
Proof. reflexivity. Qed.

Lemma commands_has_translate : JsMap.get "translate" (commands env) = Some translate.
Proof. reflexivity. Qed.

End StartupFacts.

Ltac nodup_strings :=
  repeat (apply NoDup_cons;
          [ let H := fresh "Hin" in
            simpl; intro H;
            repeat (destruct H as [H|H]; [discriminate H|]); destruct H
          | ]);
  apply NoDup_nil.

(** C6: after the startup registration sequence, the keys of the registry are
    the canonical names and aliases of the six commands, each key occurs once
    and maps to one descriptor, which it names; the canonical name of every
    descriptor in the registry is a key that maps to that descriptor; and
    looking up an alias returns the same descriptor as looking up the
    canonical name. *)
Theorem C6_registry_after_startup (env : process_env) :
  let cmds := commands env in
  JsMap.keys cmds = concat (map keys_of (startup env))
  /\ NoDup (JsMap.keys cmds)
  /\ Forall (fun kc => In (snd kc) (startup env) /\ In (fst kc) (keys_of (snd kc))) cmds
  /\ Forall (fun cmd => JsMap.get (name cmd) cmds = Some cmd) (JsMap.values cmds)
  /\ Forall (fun cmd =>
               Forall (fun a => JsMap.get a cmds = Some cmd
                                /\ JsMap.get a cmds = JsMap.get (name cmd) cmds)
                      (aliases cmd))
            (startup env).
Proof.
  intro cmds. subst cmds. repeat split.
  - rewrite commands_keys. nodup_strings.
  - rewrite commands_entries. unfold startup.
    repeat (apply Forall_cons; [split; simpl; tauto|]). apply Forall_nil.
  - rewrite commands_entries.
    repeat (apply Forall_cons; [reflexivity|]). apply Forall_nil.
  - unfold startup.
    repeat (apply Forall_cons;
            [repeat (apply Forall_cons; [split; reflexivity|]); apply Forall_nil|]).
    apply Forall_nil.
Qed.

(* ================================================================== *)
(** ** Dispatcher *)

Section DispatchFacts.

Variable cmds : registry.
Variable ctx : context.

Lemma dispatch_no_name (name : option string) (h : trace) :
  Js.truthy_opt name = false ->
  dispatchCommandByName cmds name ctx h = (Return false, h).
Proof. destruct name as [[|a r]|]; simpl; intro H; try discriminate; reflexivity. Qed.

Lemma dispatch_unknown (n : string) (h : trace) :
  JsMap.get n cmds = None ->
  dispatchCommandByName cmds (Some n) ctx h = (Return false, h).
Proof.
  intro H. destruct n as [|a r]; simpl; [reflexivity|]. now rewrite H.
Qed.

Lemma dispatch_done (n : string) (cmd : command) (h h1 : trace) :
  n <> EmptyString ->
  JsMap.get n cmds = Some cmd ->
  execute cmd (exec_ctx cmds ctx) h = (Return tt, h1) ->
  dispatchCommandByName cmds (Some n) ctx h = (Return true, h1).
Proof.
  intros Hn Hget Hrun. destruct n as [|a r]; [now elim Hn|].
  unfold dispatchCommandByName. rewrite Hget.
  unfold bind, try_catch. now rewrite Hrun.
Qed.

Lemma dispatch_caught (n : string) (cmd : command) (e : js_error) (h h1 : trace) :
  n <> EmptyString ->
  JsMap.get n cmds = Some cmd ->
  execute cmd (exec_ctx cmds ctx) h = (Throw e, h1) ->
  dispatchCommandByName cmds (Some n) ctx h = (Return true, after_notice ctx n e h1).
Proof.
  intros Hn Hget Hrun. destruct n as [|a r]; [now elim Hn|].
  unfold dispatchCommandByName. rewrite Hget.
  unfold bind at 1. unfold try_catch at 1. rewrite Hrun.
  unfold after_notice, bind, try_catch, console_error, emit, void, bind, ret.
  destruct (ctx_sendText ctx (ctx_from ctx) (error_notice e) _) as [[x|e'] h2];
    reflexivity.
Qed.

(** The dispatcher always returns, and [true] exactly for a non-empty name
    with an entry. *)
Lemma dispatch_returns (name : option string) (h : trace) :
  exists b h',
    dispatchCommandByName cmds name ctx h = (Return b, h')
    /\ (b = true <->
        exists n, name = Some n /\ n <> EmptyString /\ JsMap.has n cmds = true).
Proof.
  destruct name as [n|].
  2:{ exists false, h. split; [reflexivity|].
      split; [discriminate | intros [n [E _]]; discriminate E]. }
  destruct n as [|a r].
  { exists false, h. split; [reflexivity|].
    split; [discriminate | intros [n [E [Hn _]]]].
    injection E as <-. now elim Hn. }
  unfold JsMap.has.
  destruct (JsMap.get (String a r) cmds) as [cmd|] eqn:Hget.
  - destruct (execute cmd (exec_ctx cmds ctx) h) as [[[]|e] h1] eqn:Hrun.
    + exists true, h1. split.
      * now apply dispatch_done with (cmd := cmd).
      * split; [|reflexivity]. intros _. exists (String a r).
        rewrite Hget. repeat split. discriminate.
    + exists true, (after_notice ctx (String a r) e h1). split.
      * now apply dispatch_caught with (cmd := cmd).
      * split; [|reflexivity]. intros _. exists (String a r).
        rewrite Hget. repeat split. discriminate.
  - exists false, h. split; [now apply dispatch_unknown|].
    split; [discriminate|]. intros [n [E [_ Hhas]]].
    injection E as <-. rewrite Hget in Hhas. discriminate.
Qed.

End DispatchFacts.

(** C4: [dispatchCommandByName(name, ctx)] on the registry of the module
    always returns; it returns [true] exactly when the registry has an entry
    for [name], and [false] for an undefined or empty name.  When the handler
    throws, the failure is logged and one notice is attempted through
    [ctx.sendText]; whatever that send does, the dispatcher still returns
    [true].  Without a matching command nothing happens. *)
Theorem C4_dispatch_returns_whether_found
    (env : process_env) (name : option string) (ctx : context) (h : trace) :
  let cmds := commands env in
  exists (b : bool) (h' : trace),
    dispatchCommandByName cmds name ctx h = (Return b, h')
    /\ (b = true <-> exists n, name = Some n /\ JsMap.has n cmds = true)
    /\ (Js.truthy_opt name = false -> b = false)
    /\ (forall n cmd, name = Some n -> JsMap.get n cmds = Some cmd ->
          h' = match execute cmd (exec_ctx cmds ctx) h with
               | (Return _, h1) => h1
               | (Throw e, h1) => after_notice ctx n e h1
               end)
    /\ (b = false -> h' = h).
Proof.
  intro cmds. subst cmds.
  destruct (Js.truthy_opt name) eqn:Hname.
  2:{ exists false, h. split; [now apply dispatch_no_name|].
      split; [|split; [|split]]; try reflexivity.
      - split; [discriminate|]. intros [n [-> Hhas]].
        destruct n; [discriminate Hhas | discriminate Hname].
      - intros n cmd -> Hget.
        apply commands_key_not_empty in Hget.
        destruct n; [now elim Hget | discriminate Hname]. }
  destruct name as [n|]; [|discriminate Hname].
  assert (Hn : n <> EmptyString) by (destruct n; [discriminate Hname | discriminate]).
  destruct (JsMap.get n (commands env)) as [cmd|] eqn:Hget.
  - destruct (execute cmd (exec_ctx (commands env) ctx) h) as [[[]|e] h1] eqn:Hrun.
    + exists true, h1. split; [now apply dispatch_done with (cmd := cmd)|].
      split; [|split; [|split]]; try discriminate.
      * split; [|reflexivity]. intros _. exists n. unfold JsMap.has.
        now rewrite Hget.
      * intros n' cmd' E Hget'. injection E as <-.
        rewrite Hget in Hget'. injection Hget' as <-. now rewrite Hrun.
    + exists true, (after_notice ctx n e h1).
      split; [now apply dispatch_caught with (cmd := cmd)|].
      split; [|split; [|split]]; try discriminate.
      * split; [|reflexivity]. intros _. exists n. unfold JsMap.has.
        now rewrite Hget.
      * intros n' cmd' E Hget'. injection E as <-.
        rewrite Hget in Hget'. injection Hget' as <-. now rewrite Hrun.
  - exists false, h. split; [now apply dispatch_unknown|].
    split; [|split; [|split]]; try reflexivity.
    + split; [discriminate|]. intros [n' [E Hhas]]. injection E as <-.
      unfold JsMap.has in Hhas. rewrite Hget in Hhas. discriminate.
    + intros n' cmd' E Hget'. injection E as <-.
      rewrite Hget in Hget'. discriminate.
Qed.

(** C4 at work: [ping] while the first send is rejected.  The dispatcher
    returns [true]. *)
Lemma C4_dispatch_ping_flaky :
  exists b h',
    dispatchCommandByName (commands Sample.env) (Some "ping")
      (make_ctx Sample.net_flaky Sample.sender "/ping" "") [] = (Return b, h')
    /\ b = true.
Proof.
  destruct (C4_dispatch_returns_whether_found Sample.env (Some "ping")
              (make_ctx Sample.net_flaky Sample.sender "/ping" "") [])
    as [b [h' [Hrun [Hfound _]]]].
  exists b, h'. split; [exact Hrun|].
  apply Hfound. exists "ping". split; reflexivity.
Defined.

(** C1, as stated, fails: when the Graph API rejects the send of [pong] with
    the message [fetch failed], the notice sent next is
    [Command error: fetch failed]: it carries the message of the thrown
    error. *)
Lemma C1_notice_carries_error_message :
  dispatchCommandByName (commands Sample.env) (Some "ping")
    (make_ctx Sample.net_flaky Sample.sender "/ping" "") []
  = (Return true,
     [MetaPost (TextPayload Sample.sender "pong");
      ConsoleError ["Command execution error"; "ping"] Sample.fetch_failed;
      MetaPost (TextPayload Sample.sender "Command error: fetch failed")])
  /\ message Sample.fetch_failed = Some "fetch failed"
  /\ occurs_in "fetch failed" "Command error: fetch failed" = true.
Proof. repeat split. Qed.

(** C1 (amended): for every registered command and every error thrown by its
    handler during dispatch, the failure is logged and the notice sent back to
    the sender is one plain text message: [Command error: ] followed by the
    message of the thrown error, or by [internal error] when the error has no
    message or an empty one. *)
Theorem C1_failure_notice_text
    (env : process_env) (net : network) (key : string) (cmd : command)
    (from text argsRaw : string) (err : js_error) (h h1 : trace) :
  let cmds := commands env in
  let ctx := make_ctx net from text argsRaw in
  JsMap.get key cmds = Some cmd ->
  execute cmd (exec_ctx cmds ctx) h = (Throw err, h1) ->
  dispatchCommandByName cmds (Some key) ctx h =
    (Return true,
     h1 ++ [ConsoleError ["Command execution error"; key] err;
            MetaPost (TextPayload from (error_notice err))])
  /\ error_notice err =
       "Command error: " +++ match message err with
                             | Some (String a r) => String a r
                             | _ => "internal error"
                             end.
Proof.
  intros cmds ctx Hget Hrun. split; [|reflexivity].
  rewrite (dispatch_caught cmds ctx key cmd err h h1
             (commands_key_not_empty env key cmd Hget) Hget Hrun).
  unfold after_notice, ctx. simpl.
  unfold sendText. rewrite sendToMeta_run. simpl.
  now rewrite <- app_assoc.
Qed.

(** C1 (amended) at work: the rejected [pong]. *)
Lemma C1_failure_notice_ping :
  JsMap.get "ping" (commands Sample.env) = Some ping
  /\ execute ping
       (exec_ctx (commands Sample.env)
          (make_ctx Sample.net_flaky Sample.sender "/ping" "")) []
     = (Throw Sample.fetch_failed, [MetaPost (TextPayload Sample.sender "pong")])
  /\ dispatchCommandByName (commands Sample.env) (Some "ping")
       (make_ctx Sample.net_flaky Sample.sender "/ping" "") []
     = (Return true,
        [MetaPost (TextPayload Sample.sender "pong")] ++
        [ConsoleError ["Command execution error"; "ping"] Sample.fetch_failed;
         MetaPost (TextPayload Sample.sender (error_notice Sample.fetch_failed))]).
Proof.
  split; [reflexivity | split; [reflexivity|]].
  apply (C1_failure_notice_text Sample.env Sample.net_flaky "ping" ping
           Sample.sender "/ping" "" Sample.fetch_failed []
           [MetaPost (TextPayload Sample.sender "pong")]);
    reflexivity.
Defined.

(* ================================================================== *)
(** ** Reading a trace *)

Lemma translation_calls_app (a b : trace) :
  translation_calls (a ++ b) = translation_calls a ++ translation_calls b.
Proof.
  induction a as [|ev a IH]; simpl; [reflexivity|].
  destruct ev; simpl; now rewrite IH.
Qed.

Lemma sent_texts_app (a b : trace) :
  sent_texts (a ++ b) = sent_texts a ++ sent_texts b.
Proof.
  induction a as [|ev a IH]; simpl; [reflexivity|].
  destruct ev as [[to t|to l]|q t|w e]; simpl; now rewrite IH.
Qed.

(* ================================================================== *)
(** ** The [translate] command *)

Section TranslateFacts.

Variable c : exec_context.

Lemma includes_truthy (ch : ascii) (s : string) :
  Js.includes ch s = true -> Js.truthy s = true.
Proof. destruct s; [discriminate | reflexivity]. Qed.

(** Without a pipe: the usage text, and nothing else. *)
Lemma translate_without_pipe (h : trace) :
  Js.includes Js.PIPE (ctx_args c) = false ->
  execute translate c h = void (ctx_sendText c (ctx_from c) translate_usage) h.
Proof.
  intro H. simpl. rewrite H. simpl. now rewrite orb_true_r.
Qed.

(** With a pipe and nothing but white space after the first one. *)
Lemma translate_without_text (h : trace) :
  Js.includes Js.PIPE (ctx_args c) = true ->
  Js.trim (after_first Js.PIPE (ctx_args c)) = EmptyString ->
  execute translate c h =
    void (ctx_sendText c (ctx_from c) "No text to translate provided.") h.
Proof.
  intros Hp Ht. simpl. rewrite Hp, (includes_truthy _ _ Hp). simpl.
  change "|" with (String Js.PIPE EmptyString).
  now rewrite split_tail_join, Ht.
Qed.

(** Otherwise: one call to [ctx.translateText] with the trimmed text after
    the first pipe and the trimmed language code before it ([en] when that
    is empty), then one send, of the translation or of the failure text. *)
Lemma translate_with_text (h : trace) :
  let txt := Js.trim (after_first Js.PIPE (ctx_args c)) in
  let target := Js.trim (Js.or_default (Some (before_first Js.PIPE (ctx_args c))) "en") in
  Js.includes Js.PIPE (ctx_args c) = true ->
  txt <> EmptyString ->
  execute translate c h =
    match ctx_translateText c txt target h with
    | (Return (Some (String a r)), h1) =>
        void (ctx_sendText c (ctx_from c)
                ("Translated (" +++ target +++ "): " +++ String a r)) h1
    | (Return _, h1) => void (ctx_sendText c (ctx_from c) "Translation failed.") h1
    | (Throw e, h1) => (Throw e, h1)
    end.
Proof.
  intros txt target Hp Ht. subst txt target. simpl.
  rewrite Hp, (includes_truthy _ _ Hp). simpl.
  change "|" with (String Js.PIPE EmptyString).
  rewrite split_tail_join, split_head.
  apply truthy_true_iff in Ht. rewrite Ht. simpl.
  unfold bind at 1.
  destruct (ctx_translateText c _ _ h) as [[[[|a r]|]|e] h1]; reflexivity.
Qed.

End TranslateFacts.

(** C7, as stated, fails: for the argument string [id|], which has a pipe
    and no text after it, the handler sends [No text to translate provided.],
    which is not the usage message. *)
Lemma C7_empty_text_is_not_usage :
  Js.includes Js.PIPE "id|" = true
  /\ Js.trim (after_first Js.PIPE "id|") = EmptyString
  /\ snd (execute translate
            (exec_ctx (commands Sample.env)
               (make_ctx Sample.net_up Sample.sender "/translate id|" "id|")) [])
     = [MetaPost (TextPayload Sample.sender "No text to translate provided.")]
  /\ "No text to translate provided." <> translate_usage.
Proof. repeat split. discriminate. Qed.

(** C7 (amended): for every invocation of the translate command whose
    argument string lacks a pipe, the handler sends the usage message; for
    every invocation whose text after the first pipe is empty after trimming,
    it sends the fixed text [No text to translate provided.]; in both cases
    that send is all the handler does, and no call to the translation
    collaborator is made. *)
Theorem C7_translate_rejects_without_calling
    (net : network) (cmds : registry) (from text args : string) (h : trace) :
  let notice :=
    if Js.includes Js.PIPE args then "No text to translate provided."
    else translate_usage in
  Js.includes Js.PIPE args = false
  \/ Js.trim (after_first Js.PIPE args) = EmptyString ->
  (forall c : exec_context, ctx_args c = args ->
     execute translate c h = void (ctx_sendText c (ctx_from c) notice) h)
  /\ snd (execute translate (exec_ctx cmds (make_ctx net from text args)) h)
     = h ++ [MetaPost (TextPayload from notice)]
  /\ translation_calls
       (snd (execute translate (exec_ctx cmds (make_ctx net from text args)) h))
     = translation_calls h.
Proof.
  intros notice Hcase.
  assert (Hgen : forall c : exec_context, ctx_args c = args ->
            execute translate c h = void (ctx_sendText c (ctx_from c) notice) h).
  { intros c Hc. subst notice args.
    destruct (Js.includes Js.PIPE (ctx_args c)) eqn:Hp.
    - destruct Hcase as [Hcase|Hcase]; [discriminate|].
      now apply translate_without_text.
    - now apply translate_without_pipe. }
  split; [exact Hgen|].
  rewrite (Hgen (exec_ctx cmds (make_ctx net from text args)) eq_refl).
  simpl. rewrite void_sendText_trace. split; [reflexivity|].
  rewrite translation_calls_app. simpl. apply app_nil_r.
Qed.

(** C7 (amended) at work: [/translate hello] and [/translate id|]. *)
Lemma C7_translate_rejects_samples :
  snd (execute translate
         (exec_ctx (commands Sample.env)
            (make_ctx Sample.net_up Sample.sender "/translate hello" "hello")) [])
  = [] ++ [MetaPost (TextPayload Sample.sender translate_usage)]
  /\ snd (execute translate
            (exec_ctx (commands Sample.env)
               (make_ctx Sample.net_up Sample.sender "/translate id|" "id|")) [])
     = [] ++ [MetaPost (TextPayload Sample.sender "No text to translate provided.")].
Proof.
  split.
  - apply (C7_translate_rejects_without_calling Sample.net_up (commands Sample.env)
             Sample.sender "/translate hello" "hello" []).
    left. reflexivity.
  - apply (C7_translate_rejects_without_calling Sample.net_up (commands Sample.env)
             Sample.sender "/translate id|" "id|" []).
    right. reflexivity.
Defined.

(* ================================================================== *)
(** ** The router *)

Section RouterFacts.

Variable env : process_env.
Variable net : network.

(** What [type === "text" && message.text && message.text.body] lets through:
    text messages with a non-empty body, as it is before trimming. *)
Lemma text_body_of_some (m : inbound_message) (b : string) :
  text_body_of m = Some b <->
  msg_type m = Some "text"
  /\ (exists t, msg_text m = Some t /\ text_body t = Some b)
  /\ b <> EmptyString.
Proof.
  unfold text_body_of. split.
  - destruct (msg_type m) as [ty|]; [|discriminate].
    destruct (String.eqb ty "text") eqn:Hty; [|discriminate].
    apply String.eqb_eq in Hty. subst ty.
    destruct (msg_text m) as [t|]; [|discriminate].
    destruct (text_body t) as [[|a r]|] eqn:Hb; try discriminate.
    intro E. injection E as <-. repeat split; [|discriminate].
    exists t. now split.
  - intros [Hty [[t [Ht Hb]] Hne]]. rewrite Hty, Ht, Hb. simpl.
    destruct b; [now elim Hne | reflexivity].
Qed.

Lemma text_body_of_none (m : inbound_message) :
  msg_type m <> Some "text"
  \/ msg_text m = None
  \/ (exists t, msg_text m = Some t
                /\ (text_body t = None \/ text_body t = Some EmptyString)) ->
  text_body_of m = None.
Proof.
  unfold text_body_of. intros [Hty|[Ht|[t [Ht Hb]]]].
  - destruct (msg_type m) as [ty|]; [|reflexivity].
    destruct (String.eqb ty "text") eqn:E; [|reflexivity].
    apply String.eqb_eq in E. subst ty. now elim Hty.
  - rewrite Ht. destruct (msg_type m) as [ty|]; [|reflexivity].
    now destruct (String.eqb ty "text").
  - rewrite Ht. destruct (msg_type m) as [ty|]; [|reflexivity].
    destruct (String.eqb ty "text"); [|reflexivity].
    destruct Hb as [Hb|Hb]; now rewrite Hb.
Qed.

(** A body of white space only has no token, names no command, and is
    answered with the default reply. *)
Lemma handle_text_blank (cmds : registry) (from body : string) (h : trace) :
  Js.trim body = EmptyString ->
  handle_text env net cmds from body h
  = void (sendText net from (default_reply EmptyString)) h.
Proof.
  intro Ht. unfold handle_text. rewrite Ht. simpl.
  unfold parse_command. simpl.
  destruct (JsMap.has EmptyString cmds); reflexivity.
Qed.

(** The module's registry answers [start]. *)
Lemma dispatch_start_found (ctx : context) (h : trace) :
  exists h', dispatchCommandByName (commands env) (Some "start") ctx h
             = (Return true, h').
Proof.
  destruct (execute (start env) (exec_ctx (commands env) ctx) h)
    as [[[]|e] h1] eqn:Hrun.
  - exists h1. apply dispatch_done with (cmd := start env);
      [discriminate | reflexivity | exact Hrun].
  - exists (after_notice ctx "start" e h1).
    apply dispatch_caught with (cmd := start env);
      [discriminate | reflexivity | exact Hrun].
Qed.

(** An onboarding trigger dispatches [start], once, and does nothing else. *)
Lemma handle_text_onboarding (from body : string) (h : trace) :
  Js.list_includes (Js.toLowerCase (first_of (tokenize body))) onboarding_triggers
    = true ->
  handle_text env net (commands env) from body h
  = void (dispatchCommandByName (commands env) (Some "start")
            (make_ctx net from (text_of body) (args_of (tokenize body)))) h.
Proof.
  intro Htrig. unfold handle_text.
  unfold tokenize, text_of in Htrig. rewrite Htrig.
  unfold void, bind, tokenize, text_of.
  destruct (dispatch_start_found
              (make_ctx net from (Js.trim body) (args_of (tokens_of (Js.trim body)))) h)
    as [h' Hd].
  now rewrite Hd.
Qed.

(** A text message with a non-empty body takes the text branch. *)
Lemma handle_message_text (cmds : registry) (from body : string) (h : trace) :
  body <> EmptyString ->
  handle_message env net cmds (text_message from body) h
  = handle_text env net cmds from body h.
Proof. destruct body; [intro H; now elim H | reflexivity]. Qed.

(** The two sends of [start], when neither throws. *)
Lemma start_run_delivered (cmds : registry) (from text argsRaw : string)
    (h : trace) (r1 r2 : http_response) :
  let welcome := TextPayload from (start_welcome env) in
  let links := TextPayload from (start_links env) in
  meta_fetch net h welcome = inr r1 ->
  meta_fetch net (h ++ [MetaPost welcome]) links = inr r2 ->
  execute (start env) (exec_ctx cmds (make_ctx net from text argsRaw)) h
  = (Return tt, h ++ [MetaPost welcome; MetaPost links]).
Proof.
  intros welcome links H1 H2. simpl. unfold bind at 1.
  rewrite void_sendText_run. fold welcome. rewrite H1.
  rewrite void_sendText_run. fold links. rewrite H2.
  now rewrite <- app_assoc.
Qed.

End RouterFacts.

(** C2, as stated, fails: a text message whose body is three spaces is empty
    after trimming, yet it is not answered with the notice for non-text
    messages but with the default reply for text that is no command. *)
Lemma C2_blank_body_gets_default_reply :
  Js.trim "   " = EmptyString
  /\ handle_message Sample.env Sample.net_up (commands Sample.env)
       (text_message Sample.sender "   ") []
     = (Return tt, [MetaPost (TextPayload Sample.sender (default_reply EmptyString))])
  /\ default_reply EmptyString <> non_text_notice.
Proof. repeat split. discriminate. Qed.

(** C2 (amended): for every inbound message whose type is not text, or whose
    text or text body is absent or the empty string, the router sends the
    fixed notice for non-text messages, dispatches no command and is done with
    that message.  A text message whose non-empty body is empty after
    trimming is answered with the default reply of text that is no command
    (with the empty text), likewise without dispatching a command.  Both hold
    for any registry. *)
Theorem C2_non_text_and_blank
    (env : process_env) (net : network) (cmds : registry)
    (m : inbound_message) (h : trace) :
  let from := msg_from m in
  let run := handle_message env net cmds m h in
  (msg_type m <> Some "text"
   \/ msg_text m = None
   \/ (exists t, msg_text m = Some t
                 /\ (text_body t = None \/ text_body t = Some EmptyString)) ->
   run = void (sendText net from non_text_notice) h
   /\ snd run = h ++ [MetaPost (TextPayload from non_text_notice)])
  /\ (forall t b,
        msg_type m = Some "text" -> msg_text m = Some t -> text_body t = Some b ->
        b <> EmptyString -> Js.trim b = EmptyString ->
        run = void (sendText net from (default_reply EmptyString)) h
        /\ snd run = h ++ [MetaPost (TextPayload from (default_reply EmptyString))]).
Proof.
  intros from run. subst from run. unfold handle_message. split.
  - intro Hcase. rewrite (text_body_of_none m Hcase).
    split; [reflexivity | apply void_sendText_trace].
  - intros t b Hty Ht Hb Hne Htrim.
    assert (Hsome : text_body_of m = Some b).
    { apply text_body_of_some. repeat split; try assumption. now exists t. }
    rewrite Hsome, (handle_text_blank env net cmds (msg_from m) b h Htrim).
    split; [reflexivity | apply void_sendText_trace].
Qed.

(** C2 (amended) at work: an image, and a body of three spaces. *)
Lemma C2_non_text_and_blank_samples :
  snd (handle_message Sample.env Sample.net_up (commands Sample.env)
         Sample.image_message [])
  = [] ++ [MetaPost (TextPayload Sample.sender non_text_notice)]
  /\ snd (handle_message Sample.env Sample.net_up (commands Sample.env)
            (text_message Sample.sender "   ") [])
     = [] ++ [MetaPost (TextPayload Sample.sender (default_reply EmptyString))].
Proof.
  split.
  - apply (C2_non_text_and_blank Sample.env Sample.net_up (commands Sample.env)
             Sample.image_message []).
    left. discriminate.
  - apply (proj2 (C2_non_text_and_blank Sample.env Sample.net_up
                    (commands Sample.env) (text_message Sample.sender "   ") [])
             {| text_body := Some "   " |} "   ");
      try reflexivity.
    discriminate.
Defined.

(** C8: the message [/translate id|Hello world] is dispatched to the
    translate command with the argument string [id|Hello world], and handling
    the message is running that handler, followed, only if the handler
    throws, by the log and the notice of the dispatcher.  The handler calls
    the translation collaborator with the text [Hello world] and the target
    [id]; when that returns [Halo dunia], the handler makes exactly one
    send, of the text [Translated (id): Halo dunia]; when it returns nothing,
    or fails (which [translateText] logs and turns into nothing), the one
    send is that of [Translation failed.]. *)
Theorem C8_translate_relays
    (env : process_env) (net : network) (from : string) (h : trace) :
  let body := "/translate id|Hello world" in
  let cmds := commands env in
  let ctx := make_ctx net from (text_of body) (args_of (tokenize body)) in
  let run := execute translate (exec_ctx cmds ctx) h in
  let call := LibrePost "Hello world" "id" in
  let answer := libre_fetch net h "Hello world" "id" in
  let translated := "Translated (id): Halo dunia" in
  let failed := "Translation failed." in
  handle_message env net cmds (text_message from body) h
    = void (dispatchCommandByName cmds (Some "translate") ctx) h
  /\ JsMap.get "translate" cmds = Some translate
  /\ ctx_args ctx = "id|Hello world"
  /\ handle_message env net cmds (text_message from body) h
     = (Return tt,
        match run with
        | (Return _, h1) => h1
        | (Throw e, h1) =>
            h1 ++ [ConsoleError ["Command execution error"; "translate"] e;
                   MetaPost (TextPayload from (error_notice e))]
        end)
  /\ (answer = inr (Some "Halo dunia") ->
      run = void (sendText net from translated) (h ++ [call])
      /\ snd run = h ++ [call; MetaPost (TextPayload from translated)])
  /\ (answer = inr None \/ answer = inr (Some EmptyString) ->
      run = void (sendText net from failed) (h ++ [call])
      /\ snd run = h ++ [call; MetaPost (TextPayload from failed)])
  /\ (forall e, answer = inl e ->
      run = void (sendText net from failed)
              (h ++ [call; ConsoleError ["translate error"] e])
      /\ snd run = h ++ [call; ConsoleError ["translate error"] e;
                         MetaPost (TextPayload from failed)]).
Proof.
  intros body cmds ctx run call answer translated failed.
  split; [reflexivity | split; [reflexivity | split; [reflexivity|]]].
  split.
  { change (handle_message env net cmds (text_message from body) h)
      with (void (dispatchCommandByName cmds (Some "translate") ctx) h).
    unfold void, bind. destruct run as [[[]|e] h1] eqn:Hrun.
    - rewrite (dispatch_done cmds ctx "translate" translate h h1);
        [reflexivity | discriminate | reflexivity | exact Hrun].
    - rewrite (dispatch_caught cmds ctx "translate" translate e h h1);
        [| discriminate | reflexivity | exact Hrun].
      unfold after_notice, ctx. cbn [ctx_sendText ctx_from make_ctx].
      unfold sendText. rewrite sendToMeta_run. simpl.
      now rewrite <- app_assoc. }
  assert (Hrun : run =
            match translateText net "Hello world" "id" h with
            | (Return (Some (String a r)), h1) =>
                void (sendText net from ("Translated (id): " +++ String a r)) h1
            | (Return _, h1) => void (sendText net from "Translation failed.") h1
            | (Throw e, h1) => (Throw e, h1)
            end).
  { subst run.
    rewrite (translate_with_text (exec_ctx cmds ctx) h);
      [reflexivity | reflexivity | discriminate]. }
  rewrite Hrun, translateText_run. fold answer.
  split; [|split].
  - intros ->. split; [reflexivity|].
    rewrite void_sendText_trace. now rewrite <- app_assoc.
  - intros [-> | ->]; (split; [reflexivity|]);
      rewrite void_sendText_trace; now rewrite <- app_assoc.
  - intros e ->. split; [reflexivity|].
    rewrite void_sendText_trace. now rewrite <- app_assoc.
Qed.

(** C8 at work, on the whole message: the collaborator answers
    [Halo dunia], and the collaborator cannot be reached; then the run of
    the handler alone. *)
Lemma C8_translate_relays_samples :
  handle_message Sample.env Sample.net_up (commands Sample.env)
    (text_message Sample.sender "/translate id|Hello world") []
  = (Return tt,
     [LibrePost "Hello world" "id";
      MetaPost (TextPayload Sample.sender "Translated (id): Halo dunia")])
  /\ handle_message Sample.env Sample.net_no_libre (commands Sample.env)
       (text_message Sample.sender "/translate id|Hello world") []
     = (Return tt,
        [LibrePost "Hello world" "id";
         ConsoleError ["translate error"] Sample.fetch_failed;
         MetaPost (TextPayload Sample.sender "Translation failed.")])
  /\ snd (execute translate
            (exec_ctx (commands Sample.env)
               (make_ctx Sample.net_up Sample.sender
                  (text_of "/translate id|Hello world")
                  (args_of (tokenize "/translate id|Hello world")))) [])
     = [] ++ [LibrePost "Hello world" "id";
              MetaPost (TextPayload Sample.sender "Translated (id): Halo dunia")].
Proof.
  split; [|split].
  - destruct (C8_translate_relays Sample.env Sample.net_up Sample.sender [])
      as [_ [_ [_ [Hmsg _]]]].
    exact Hmsg.
  - destruct (C8_translate_relays Sample.env Sample.net_no_libre Sample.sender [])
      as [_ [_ [_ [Hmsg _]]]].
    exact Hmsg.
  - destruct (C8_translate_relays Sample.env Sample.net_up Sample.sender [])
      as [_ [_ [_ [_ [Hhalo _]]]]].
    exact (proj2 (Hhalo eq_refl)).
Defined.

(** A body whose first token is an onboarding trigger is not empty. *)
Lemma onboarding_body_not_empty (body : string) :
  Js.list_includes (Js.toLowerCase (first_of (tokenize body))) onboarding_triggers
    = true ->
  body <> EmptyString.
Proof. intros H E. subst body. discriminate H. Qed.

(** C9, as stated, fails: when the Graph API rejects the send of the welcome
    text, the handler of [start] stops there; the second text sent for the
    message [hello] is the error notice of the dispatcher, not the links. *)
Lemma C9_rejected_welcome_no_links :
  Js.list_includes (Js.toLowerCase (first_of (tokenize "hello"))) onboarding_triggers
    = true
  /\ sent_texts
       (snd (handle_message Sample.env Sample.net_flaky (commands Sample.env)
               (text_message Sample.sender "hello") []))
     = [(Sample.sender, start_welcome Sample.env);
        (Sample.sender, "Command error: fetch failed")]
  /\ "Command error: fetch failed" <> start_links Sample.env.
Proof. repeat split. discriminate. Qed.

(** C9 (amended): for every inbound text message whose first token
    lower-cases to one of [/start], [start], [hi], [hello], [hey], the start
    command is dispatched exactly once, with the remaining tokens joined as
    its argument string, and nothing else is done for the message; provided
    neither of its two sends throws, exactly two outbound text sends occur,
    in order: the welcome text, then the links text. *)
Theorem C9_onboarding_dispatches_start
    (env : process_env) (net : network) (from body : string) (h : trace) :
  let cmds := commands env in
  let tokens := tokenize body in
  let ctx := make_ctx net from (text_of body) (args_of tokens) in
  let welcome := TextPayload from (start_welcome env) in
  let links := TextPayload from (start_links env) in
  Js.list_includes (Js.toLowerCase (first_of tokens)) onboarding_triggers = true ->
  handle_message env net cmds (text_message from body) h
    = void (dispatchCommandByName cmds (Some "start") ctx) h
  /\ JsMap.get "start" cmds = Some (start env)
  /\ ctx_args ctx = String.concat " " (tl tokens)
  /\ (forall r1 r2,
        meta_fetch net h welcome = inr r1 ->
        meta_fetch net (h ++ [MetaPost welcome]) links = inr r2 ->
        handle_message env net cmds (text_message from body) h
          = (Return tt, h ++ [MetaPost welcome; MetaPost links])).
Proof.
  intros cmds tokens ctx welcome links Htrig. subst cmds tokens ctx.
  rewrite (handle_message_text env net (commands env) from body h
             (onboarding_body_not_empty body Htrig)).
  pose proof (handle_text_onboarding env net from body h Htrig) as Hrun.
  split; [exact Hrun | split; [reflexivity | split; [reflexivity|]]].
  intros r1 r2 H1 H2. rewrite Hrun. unfold void, bind.
  rewrite (dispatch_done (commands env) _ "start" (start env) h
             (h ++ [MetaPost welcome; MetaPost links]));
    [reflexivity | discriminate | reflexivity |].
  now apply start_run_delivered with (r1 := r1) (r2 := r2).
Qed.

(** C9 (amended) at work: [HeLLo there  you] with every send delivered. *)
Lemma C9_onboarding_sample :
  handle_message Sample.env Sample.net_up (commands Sample.env)
    (text_message Sample.sender "HeLLo there  you") []
  = (Return tt,
     [] ++ [MetaPost (TextPayload Sample.sender (start_welcome Sample.env));
            MetaPost (TextPayload Sample.sender (start_links Sample.env))])
  /\ ctx_args (make_ctx Sample.net_up Sample.sender (text_of "HeLLo there  you")
                 (args_of (tokenize "HeLLo there  you")))
     = "there you".
Proof.
  destruct (C9_onboarding_dispatches_start Sample.env Sample.net_up Sample.sender
              "HeLLo there  you" [] eq_refl)
    as [_ [_ [Hargs Hsent]]].
  split.
  - exact (Hsent Sample.accepted Sample.accepted eq_refl eq_refl).
  - exact Hargs.
Defined.

(* ================================================================== *)
(** ** The verification handshake (GET) *)

Section VerificationFacts.

Lemma strict_eq_true_iff (a b : option string) :
  Js.strict_eq a b = true <-> a = b.
Proof.
  destruct a as [x|], b as [y|]; simpl; split; intro H;
    try discriminate; try reflexivity.
  - apply String.eqb_eq in H. now subst.
  - injection H as <-. apply String.eqb_refl.
Qed.

Lemma truthy_opt_true_iff (v : option string) :
  Js.truthy_opt v = true <-> exists s, v = Some s /\ s <> EmptyString.
Proof.
  destruct v as [[|a r]|]; simpl; split; intro H; try discriminate;
    try reflexivity.
  - destruct H as [s [E Hne]]. injection E as <-. now elim Hne.
  - exists (String a r). split; [reflexivity | discriminate].
  - destruct H as [s [E _]]. discriminate E.
Qed.

(** A parameter is the value under its Meta name when that is not empty,
    and else whatever is under its short name. *)
Lemma param_spec (q : list (string * string)) (k alt : string) :
  param q k alt =
    match query_get q k with
    | Some (String a r) => Some (String a r)
    | _ => query_get q alt
    end.
Proof. unfold param, Js.or_else. now destruct (query_get q k) as [[|a r]|]. Qed.

(** A GET request is answered by [handle_get] and touches nothing. *)
Lemma module_exports_get (env : process_env) (net : network) (cmds : registry)
    (q : list (string * string)) (b : option webhook_body) (h : trace) :
  module_exports env net cmds {| method := "GET"; query := q; req_body := b |} h
  = (Return (handle_get env q), h).
Proof. reflexivity. Qed.

Lemma handle_get_accepts (env : process_env) (q : list (string * string)) :
  Js.truthy_opt (param q "hub.mode" "mode") = true ->
  param q "hub.verify_token" "verify_token" = VERIFY_TOKEN env ->
  handle_get env q =
    {| res_code := 200;
       res_send := Js.or_default (param q "hub.challenge" "challenge") "OK" |}.
Proof.
  intros Hm Ht. unfold handle_get. rewrite Hm.
  apply strict_eq_true_iff in Ht. now rewrite Ht.
Qed.


End VerificationFacts.




(** C10, as stated, fails: with the secret unconfigured, a request that
    supplies an empty mode parameter and no token is answered 403. *)
Lemma C10_empty_mode_is_refused :
  let q := [("hub.mode", "")] in
  VERIFY_TOKEN Sample.env_unset = None
  /\ query_get q "hub.mode" = Some EmptyString
  /\ query_get q "hub.verify_token" = None
  /\ query_get q "verify_token" = None
  /\ module_exports Sample.env_unset Sample.net_up (commands Sample.env_unset)
       {| method := "GET"; query := q; req_body := None |} []
     = (Return {| res_code := 403; res_send := "Invalid verify token" |}, []).
Proof. repeat split. Qed.

(** C10 (amended): if the verify-token secret is unconfigured, then for every
    GET request that supplies a non-empty mode parameter but no
    [hub.verify_token] or [verify_token] parameter, the handler responds 200
    rather than 403 (with the supplied challenge, or [OK]), because the
    absent supplied token is identical to the absent configured secret. *)
Theorem C10_unset_secret_accepts_absent_token
    (env : process_env) (net : network) (cmds : registry)
    (q : list (string * string)) (b : option webhook_body) (h : trace) :
  env_WHATSAPP_VERIFY_TOKEN env = None ->
  (exists m, param q "hub.mode" "mode" = Some m /\ m <> EmptyString) ->
  query_get q "hub.verify_token" = None ->
  query_get q "verify_token" = None ->
  module_exports env net cmds {| method := "GET"; query := q; req_body := b |} h
  = (Return {| res_code := 200;
               res_send := Js.or_default (param q "hub.challenge" "challenge") "OK" |},
     h).
Proof.
  intros Henv Hmode Ht1 Ht2. rewrite module_exports_get.
  rewrite handle_get_accepts; [reflexivity | now apply truthy_opt_true_iff |].
  unfold VERIFY_TOKEN. rewrite Henv, param_spec, Ht1. exact Ht2.
Qed.

(** C10 (amended) at work: no secret configured, no token sent. *)
Lemma C10_unset_secret_sample :
  module_exports Sample.env_unset Sample.net_up (commands Sample.env_unset)
    {| method := "GET";
       query := [("hub.mode", "subscribe"); ("hub.challenge", "42")];
       req_body := None |} []
  = (Return {| res_code := 200; res_send := "42" |}, []).
Proof.
  apply (C10_unset_secret_accepts_absent_token Sample.env_unset Sample.net_up
           (commands Sample.env_unset)
           [("hub.mode", "subscribe"); ("hub.challenge", "42")] None []);
    try reflexivity.
  exists "subscribe". split; [reflexivity | discriminate].
Defined.

(* ================================================================== *)
(** ** Deliveries (POST) *)

(** A body without an [entry] array is refused and nothing is sent. *)
Lemma post_without_entry (env : process_env) (net : network) (cmds : registry)
    (q : list (string * string)) (h : trace) :
  module_exports env net cmds
    {| method := "POST"; query := q; req_body := Some {| entry := None |} |} h
  = (Return {| res_code := 400; res_send := "No valid body" |}, h).
Proof. reflexivity. Qed.

(** Any other method is refused. *)
Example put_not_allowed :
  module_exports Sample.env Sample.net_up (commands Sample.env)
    {| method := "PUT"; query := []; req_body := None |} []
  = (Return {| res_code := 405; res_send := "Method Not Allowed" |}, []).
Proof. reflexivity. Qed.

(** A delivery of two messages is processed in order and acknowledged. *)
Example post_two_messages :
  let delivery := {| entry := Some [ {| changes := Some [ {| value := Some
    {| messages := Some [text_message Sample.sender "/ping"; Sample.image_message] |}
    |} ] |} ] |} in
  module_exports Sample.env Sample.net_up (commands Sample.env)
    {| method := "POST"; query := []; req_body := Some delivery |} []
  = (Return {| res_code := 200; res_send := "EVENT_RECEIVED" |},
     [MetaPost (TextPayload Sample.sender "pong");
      MetaPost (TextPayload Sample.sender non_text_notice)]).
Proof. reflexivity. Qed.

(** A send that throws outside a command handler ends the request: 500. *)
Example post_rejected_notice :
  let delivery := {| entry := Some [ {| changes := Some [ {| value := Some
    {| messages := Some [Sample.image_message; text_message Sample.sender "/ping"] |}
    |} ] |} ] |} in
  module_exports Sample.env Sample.net_flaky (commands Sample.env)
    {| method := "POST"; query := []; req_body := Some delivery |} []
  = (Return {| res_code := 500; res_send := "Server error" |},
     [MetaPost (TextPayload Sample.sender non_text_notice);
      ConsoleError ["Webhook handler error:"] Sample.fetch_failed]).
Proof. reflexivity. Qed.

(* ================================================================== *)
(** ** Further properties: helpers and tokenizer *)

(** [translateText] always returns, [null] or a non-empty string; it makes
    exactly one call to the translation service, and logs exactly when that
    call fails: a failed call is logged once and gives [null], an answered
    call is not logged and gives the [translatedText] of the answer, or
    [null] when that is absent or empty. *)
Theorem translateText_never_throws
    (net : network) (text target : string) (h : trace) :
  exists (r : option string) (log : trace),
    translateText net text target h = (Return r, h ++ LibrePost text target :: log)
    /\ (r = None \/ exists s, r = Some s /\ s <> EmptyString)
    /\ (log = []
        \/ exists e, log = [ConsoleError ["translate error"] e] /\ r = None
                     /\ libre_fetch net h text target = inl e)
    /\ (forall e, libre_fetch net h text target = inl e ->
        log = [ConsoleError ["translate error"] e] /\ r = None)
    /\ (forall d, libre_fetch net h text target = inr d ->
        log = [] /\ r = if Js.truthy_opt d then d else None)
    /\ translation_calls (snd (translateText net text target h))
       = translation_calls h ++ [(text, target)].
Proof.
  rewrite translateText_run.
  destruct (libre_fetch net h text target) as [e|[[|a r]|]] eqn:Hans.
  - exists None, [ConsoleError ["translate error"] e].
    split; [reflexivity|]. split; [now left|]. split; [right; now exists e|].
    split; [intros e' E; injection E as <-; now split|].
    split; [intros d E; discriminate E|].
    simpl. now rewrite translation_calls_app.
  - exists None, [].
    split; [reflexivity|]. split; [now left|]. split; [now left|].
    split; [intros e E; discriminate E|].
    split; [intros d E; injection E as <-; now split|].
    simpl. now rewrite translation_calls_app.
  - exists (Some (String a r)), [].
    split; [reflexivity|].
    split; [right; exists (String a r); split; [reflexivity | discriminate]|].
    split; [now left|].
    split; [intros e E; discriminate E|].
    split; [intros d E; injection E as <-; now split|].
    simpl. now rewrite translation_calls_app.
  - exists None, [].
    split; [reflexivity|]. split; [now left|]. split; [now left|].
    split; [intros e E; discriminate E|].
    split; [intros d E; injection E as <-; now split|].
    simpl. now rewrite translation_calls_app.
Qed.

(** The service cannot be reached: one call, one log entry, [null]. *)
Lemma translateText_unreachable :
  translateText Sample.net_no_libre "Hello" "id" []
  = (Return None,
     [] ++ [LibrePost "Hello" "id"; ConsoleError ["translate error"] Sample.fetch_failed]).
Proof.
  destruct (translateText_never_throws Sample.net_no_libre "Hello" "id" [])
    as [r [log [Hrun [_ [_ [Hfail _]]]]]].
  destruct (Hfail Sample.fetch_failed eq_refl) as [Hlog Hr].
  rewrite Hrun, Hlog, Hr. reflexivity.
Defined.

(** A send throws exactly when the call to the Graph API is rejected: an
    error status and a body that is no JSON are returned like any answer.
    Either way exactly one call is made. *)
Theorem sendText_throws_iff_rejected
    (net : network) (to text : string) (h : trace) :
  snd (sendText net to text h) = h ++ [MetaPost (TextPayload to text)]
  /\ ((exists e, fst (sendText net to text h) = Throw e)
      <-> exists e, meta_fetch net h (TextPayload to text) = inl e)
  /\ (forall st, meta_fetch net h (TextPayload to text)
                 = inr {| res_status := st; res_json := None |} ->
      fst (sendText net to text h) = Return {| status := st; body := "{}" |}).
Proof.
  unfold sendText. rewrite sendToMeta_run. simpl. split; [reflexivity|]. split.
  - destruct (meta_fetch net h (TextPayload to text)) as [e|res]; split.
    + intros _. now exists e.
    + intros _. now exists e.
    + intros [e He]. discriminate He.
    + intros [e He]. discriminate He.
  - intros st ->. reflexivity.
Qed.

Section JoinFacts.

Lemma join_cons (sep t : string) (ts : list string) :
  ts <> [] -> Js.join sep (t :: ts) = t +++ sep +++ Js.join sep ts.
Proof. destruct ts; [intro H; now elim H | reflexivity]. Qed.

(** Joining tokens with single spaces and splitting again is the identity. *)
Lemma tokens_of_join (ts : list string) :
  Forall is_token ts -> tokens_of (Js.join " " ts) = ts.
Proof.
  induction ts as [|t ts IH]; intro H; [reflexivity|].
  inversion H as [|? ? Ht Hts]; subst.
  destruct ts as [|t' ts'].
  - simpl. now apply tokens_of_word.
  - rewrite join_cons by discriminate.
    change (t +++ " " +++ Js.join " " (t' :: ts'))
      with (t +++ String Js.SPACE (Js.join " " (t' :: ts'))).
    rewrite tokens_of_space, (tokens_of_word t Ht), (IH Hts). reflexivity.
Qed.

End JoinFacts.

(** The argument string loses no token: the tokens of the argument string
    are the tokens of the message from index 1 on, and the tokens of a
    message joined with single spaces tokenize to themselves. *)
Theorem args_keep_the_tokens (raw : string) :
  tokens_of (args_of (tokenize raw)) = tl (tokenize raw)
  /\ tokens_of (Js.join " " (tokenize raw)) = tokenize raw.
Proof.
  pose proof (tokens_are_tokens (text_of raw)) as H. fold (tokenize raw) in H.
  split.
  - unfold args_of, Js.slice1_list. apply tokens_of_join.
    destruct (tokenize raw); [constructor | now inversion H].
  - now apply tokens_of_join.
Qed.

(* ================================================================== *)
(** ** Further properties: the router *)

Section ResolutionFacts.

Variable env : process_env.
Variable net : network.
Variable cmds : registry.

Lemma is_command_some (w : string) :
  is_command cmds (Some w) = Js.truthy w && JsMap.has w cmds.
Proof. now destruct w. Qed.

Lemma parse_command_word (tokens : list string) :
  let word := command_word (first_of tokens) in
  is_command cmds (fst (parse_command cmds tokens))
    = Js.truthy word && JsMap.has word cmds
  /\ (Js.truthy word && JsMap.has word cmds = true ->
      parse_command cmds tokens = (Some word, args_of tokens)).
Proof.
  unfold parse_command, command_word.
  destruct (Js.startsWith "/" (first_of tokens) || Js.startsWith "!" (first_of tokens)).
  - cbn [fst]. split; [apply is_command_some | reflexivity].
  - destruct (JsMap.has (Js.toLowerCase (first_of tokens)) cmds) eqn:Hhas; cbn [fst].
    + split; [|reflexivity]. rewrite is_command_some, Hhas. reflexivity.
    + split; [now rewrite andb_false_r|]. rewrite andb_false_r. discriminate.
Qed.

End ResolutionFacts.

(** The resolution of a text that starts with no onboarding trigger. *)
Lemma handle_text_resolves
    (env : process_env) (net : network) (cmds : registry)
    (from body : string) (h : trace) :
  let word := command_word (first_of (tokenize body)) in
  Js.list_includes (Js.toLowerCase (first_of (tokenize body))) onboarding_triggers
    = false ->
  handle_text env net cmds from body h
  = if Js.truthy word && JsMap.has word cmds
    then void (dispatchCommandByName cmds (Some word)
                 (make_ctx net from (text_of body) (args_of (tokenize body)))) h
    else void (sendText net from (default_reply (text_of body))) h.
Proof.
  intros word Htrig. subst word.
  unfold handle_text. unfold tokenize, text_of in *. rewrite Htrig.
  destruct (parse_command_word cmds (tokens_of (Js.trim body))) as [His Hparse].
  destruct (Js.truthy _ && JsMap.has _ cmds) eqn:Hw.
  - rewrite (Hparse eq_refl). cbv beta iota. rewrite is_command_some, Hw. reflexivity.
  - destruct (parse_command cmds (tokens_of (Js.trim body))) as [cmdName argsRaw].
    simpl in His. cbv beta iota. rewrite His. reflexivity.
Qed.

(** A text that does not start with an onboarding trigger is resolved by
    its first token alone: without its [/] or [!], if it has one, and
    lower-cased, it is looked up in the registry.  A non-empty word with an
    entry is dispatched once, with the remaining tokens joined as argument
    string; anything else, a prefixed word without entry included, is
    answered with the default reply and dispatches nothing. *)
Theorem router_resolves_by_first_token
    (env : process_env) (net : network) (cmds : registry)
    (from body : string) (h : trace) :
  let text := text_of body in
  let tokens := tokenize body in
  let word := command_word (first_of tokens) in
  Js.list_includes (Js.toLowerCase (first_of tokens)) onboarding_triggers = false ->
  (Js.truthy word && JsMap.has word cmds = true ->
   handle_text env net cmds from body h
   = void (dispatchCommandByName cmds (Some word)
             (make_ctx net from text (args_of tokens))) h)
  /\ (Js.truthy word && JsMap.has word cmds = false ->
      handle_text env net cmds from body h
      = void (sendText net from (default_reply text)) h).
Proof.
  intros text tokens word Htrig. subst text tokens word.
  pose proof (handle_text_resolves env net cmds from body h Htrig) as Hrun.
  cbv zeta in Hrun. split; intro Hw; rewrite Hw in Hrun; exact Hrun.
Qed.

(** The bare word [PING there] is dispatched to [ping]; [/nope] is not a
    command and is echoed by the default reply. *)
Lemma router_resolves_samples :
  handle_text Sample.env Sample.net_up (commands Sample.env) Sample.sender
    "PING there" []
  = void (dispatchCommandByName (commands Sample.env) (Some "ping")
            (make_ctx Sample.net_up Sample.sender "PING there" "there")) []
  /\ handle_text Sample.env Sample.net_up (commands Sample.env) Sample.sender
       "/nope" []
     = void (sendText Sample.net_up Sample.sender (default_reply "/nope")) [].
Proof.
  split.
  - apply (router_resolves_by_first_token Sample.env Sample.net_up
             (commands Sample.env) Sample.sender "PING there" []);
      reflexivity.
  - apply (router_resolves_by_first_token Sample.env Sample.net_up
             (commands Sample.env) Sample.sender "/nope" []);
      reflexivity.
Defined.

(** When the registry has no [start], an onboarding trigger is answered by
    the built-in welcome and then the built-in links; the links are not sent
    when the send of the welcome throws. *)
Theorem onboarding_fallback_without_start
    (env : process_env) (net : network) (cmds : registry)
    (from body : string) (h : trace) :
  let welcome := TextPayload from (fallback_welcome env) in
  let links := TextPayload from (fallback_links env) in
  Js.list_includes (Js.toLowerCase (first_of (tokenize body))) onboarding_triggers
    = true ->
  JsMap.get "start" cmds = None ->
  handle_text env net cmds from body h =
    match meta_fetch net h welcome with
    | inl e => (Throw e, h ++ [MetaPost welcome])
    | inr _ =>
        (match meta_fetch net (h ++ [MetaPost welcome]) links with
         | inl e => Throw e
         | inr _ => Return tt
         end, h ++ [MetaPost welcome; MetaPost links])
    end.
Proof.
  intros welcome links Htrig Hget. unfold handle_text.
  unfold tokenize, text_of in Htrig. rewrite Htrig.
  unfold bind at 1. rewrite dispatch_unknown by exact Hget. simpl.
  unfold bind at 1. rewrite void_sendText_run. fold welcome.
  destruct (meta_fetch net h welcome) as [e|r1]; [reflexivity|].
  rewrite void_sendText_run. fold links. now rewrite <- app_assoc.
Qed.

(** With an empty registry, [hi] gets the built-in welcome and links. *)
Lemma onboarding_fallback_sample :
  handle_text Sample.env Sample.net_up [] Sample.sender "hi" []
  = (Return tt,
     [] ++ [MetaPost (TextPayload Sample.sender (fallback_welcome Sample.env));
            MetaPost (TextPayload Sample.sender (fallback_links Sample.env))]).
Proof.
  exact (onboarding_fallback_without_start Sample.env Sample.net_up []
           Sample.sender "hi" [] eq_refl eq_refl).
Defined.

(* ================================================================== *)
(** ** Further properties: the commands *)

(** For every argument string with a pipe and text after the first one,
    [translate] makes exactly one call to the translation service, with the
    trimmed text after the first pipe (later pipes are part of the text) and
    the trimmed code before it ([en] when nothing precedes the pipe), and
    then exactly one send: the translation under its target, or
    [Translation failed.]. *)
Theorem translate_one_call_one_send
    (net : network) (cmds : registry) (from text args : string) (h : trace) :
  let txt := Js.trim (after_first Js.PIPE args) in
  let target := Js.trim (Js.or_default (Some (before_first Js.PIPE args)) "en") in
  let run := execute translate (exec_ctx cmds (make_ctx net from text args)) h in
  Js.includes Js.PIPE args = true ->
  txt <> EmptyString ->
  exists (reply : string) (log : trace),
    snd run = h ++ [LibrePost txt target] ++ log ++ [MetaPost (TextPayload from reply)]
    /\ (log = [] \/ exists e, log = [ConsoleError ["translate error"] e])
    /\ ((exists t, libre_fetch net h txt target = inr (Some t) /\ t <> EmptyString
                   /\ reply = "Translated (" +++ target +++ "): " +++ t)
        \/ reply = "Translation failed.").
Proof.
  intros txt target run Hp Ht. subst run.
  rewrite (translate_with_text (exec_ctx cmds (make_ctx net from text args)) h Hp Ht).
  cbn [ctx_translateText ctx_base exec_ctx make_ctx ctx_sendText ctx_from ctx_args].
  fold txt target. rewrite translateText_run.
  destruct (libre_fetch net h txt target) as [e|[[|a r]|]] eqn:Hans;
    cbv beta iota; rewrite void_sendText_trace.
  - exists "Translation failed.", [ConsoleError ["translate error"] e].
    split; [now rewrite <- app_assoc|]. split; [right; now exists e | now right].
  - exists "Translation failed.", [].
    split; [now rewrite <- app_assoc|]. split; [now left | now right].
  - exists ("Translated (" +++ target +++ "): " +++ String a r), [].
    split; [now rewrite <- app_assoc|]. split; [now left|].
    left. exists (String a r). repeat split. discriminate.
  - exists "Translation failed.", [].
    split; [now rewrite <- app_assoc|]. split; [now left | now right].
Qed.

(** [|a|b] is translated to [en] as the text [a|b]. *)
Lemma translate_one_call_sample :
  exists reply log,
    snd (execute translate
           (exec_ctx (commands Sample.env)
              (make_ctx Sample.net_up Sample.sender "/tr |a|b" "|a|b")) [])
    = [] ++ [LibrePost "a|b" "en"] ++ log ++ [MetaPost (TextPayload Sample.sender reply)].
Proof.
  destruct (translate_one_call_one_send Sample.net_up (commands Sample.env)
              Sample.sender "/tr |a|b" "|a|b" [] eq_refl)
    as [reply [log [Hrun _]]]; [discriminate|].
  exists reply, log. exact Hrun.
Defined.

Section TtsFacts.

Variable c : exec_context.

Lemma tts_without_pipe (h : trace) :
  Js.includes Js.PIPE (ctx_args c) = false ->
  execute tts c h = void (ctx_sendText c (ctx_from c) tts_usage) h.
Proof. intro H. simpl. rewrite H. simpl. now rewrite orb_true_r. Qed.

Lemma tts_without_text (h : trace) :
  Js.includes Js.PIPE (ctx_args c) = true ->
  Js.trim (after_first Js.PIPE (ctx_args c)) = EmptyString ->
  execute tts c h = void (ctx_sendText c (ctx_from c) "No text provided.") h.
Proof.
  intros Hp Ht. simpl. rewrite Hp, (includes_truthy _ _ Hp). simpl.
  change "|" with (String Js.PIPE EmptyString).
  now rewrite split_tail_join, Ht.
Qed.

Lemma tts_with_text (h : trace) :
  let txt := Js.trim (after_first Js.PIPE (ctx_args c)) in
  let langCode := Js.trim (Js.or_default (Some (before_first Js.PIPE (ctx_args c))) "en") in
  Js.includes Js.PIPE (ctx_args c) = true ->
  txt <> EmptyString ->
  execute tts c h =
    try_catch
      (url <- settle (ctx_googleTTS c txt (Js.or_default (Some langCode) "en")) ;;
       void (ctx_sendAudioLink c (ctx_from c) url))
      (fun e =>
         console_error ["TTS error"] e ;;
         void (ctx_sendText c (ctx_from c) "TTS failed.")) h.
Proof.
  intros txt langCode Hp Ht. subst txt langCode. simpl.
  rewrite Hp, (includes_truthy _ _ Hp). simpl.
  change "|" with (String Js.PIPE EmptyString).
  rewrite split_tail_join, split_head.
  apply truthy_true_iff in Ht. rewrite Ht. reflexivity.
Qed.

End TtsFacts.

Lemma sent_audio_app (a b : trace) :
  sent_audio (a ++ b) = sent_audio a ++ sent_audio b.
Proof.
  induction a as [|ev a IH]; simpl; [reflexivity|].
  destruct ev as [[to t|to l]|q t|w e]; simpl; now rewrite IH.
Qed.

Lemma void_sendAudioLink_run (net : network) (to url : string) (h : trace) :
  void (sendAudioLink net to url) h =
    (match meta_fetch net h (AudioPayload to url) with
     | inl e => Throw e
     | inr _ => Return tt
     end, h ++ [MetaPost (AudioPayload to url)]).
Proof.
  unfold void, sendAudioLink, bind. rewrite sendToMeta_run.
  destruct (meta_fetch net h (AudioPayload to url)); reflexivity.
Qed.

(** An argument string without a pipe gets the usage text of [tts], one
    without text after the first pipe gets [No text provided.]; in both
    cases nothing else is done: no audio is sent. *)
Theorem tts_rejects_without_audio
    (net : network) (cmds : registry) (from text args : string) (h : trace) :
  let notice :=
    if Js.includes Js.PIPE args then "No text provided." else tts_usage in
  let run := execute tts (exec_ctx cmds (make_ctx net from text args)) h in
  Js.includes Js.PIPE args = false
  \/ Js.trim (after_first Js.PIPE args) = EmptyString ->
  snd run = h ++ [MetaPost (TextPayload from notice)]
  /\ sent_audio (snd run) = sent_audio h.
Proof.
  intros notice run Hcase.
  assert (Hrun : run = void (sendText net from notice) h).
  { subst run notice. destruct (Js.includes Js.PIPE args) eqn:Hp.
    - destruct Hcase as [Hcase|Hcase]; [discriminate|].
      now rewrite (tts_without_text (exec_ctx cmds (make_ctx net from text args))).
    - now rewrite (tts_without_pipe (exec_ctx cmds (make_ctx net from text args))). }
  rewrite Hrun, void_sendText_trace. split; [reflexivity|].
  rewrite sent_audio_app. simpl. apply app_nil_r.
Qed.

Lemma tts_rejects_sample :
  snd (execute tts
         (exec_ctx (commands Sample.env)
            (make_ctx Sample.net_up Sample.sender "/tts en|" "en|")) [])
  = [] ++ [MetaPost (TextPayload Sample.sender "No text provided.")].
Proof.
  apply (tts_rejects_without_audio Sample.net_up (commands Sample.env)
           Sample.sender "/tts en|" "en|" []).
  right. reflexivity.
Defined.

(** For an argument string with a pipe and text after it, [tts] asks the
    TTS library for the URL of the trimmed text in the trimmed language
    ([en] when that is empty or blank).  If the library throws, the error is
    logged, [TTS failed.] is sent and no audio is.  Otherwise the URL is
    sent as audio; if that send throws, the error is logged and
    [TTS failed.] is sent as well. *)
Theorem tts_audio_or_failure_text
    (net : network) (cmds : registry) (from text args : string) (h : trace) :
  let txt := Js.trim (after_first Js.PIPE args) in
  let lang :=
    Js.or_default
      (Some (Js.trim (Js.or_default (Some (before_first Js.PIPE args)) "en"))) "en" in
  let run := execute tts (exec_ctx cmds (make_ctx net from text args)) h in
  let failed := MetaPost (TextPayload from "TTS failed.") in
  Js.includes Js.PIPE args = true ->
  txt <> EmptyString ->
  (forall e, getAudioUrl net txt lang = inl e ->
     snd run = h ++ [ConsoleError ["TTS error"] e; failed])
  /\ (forall url, getAudioUrl net txt lang = inr url ->
        let audio := MetaPost (AudioPayload from url) in
        (forall res, meta_fetch net h (AudioPayload from url) = inr res ->
           run = (Return tt, h ++ [audio]))
        /\ (forall e, meta_fetch net h (AudioPayload from url) = inl e ->
              snd run = h ++ [audio; ConsoleError ["TTS error"] e; failed])).
Proof.
  intros txt lang run failed Hp Ht. subst run.
  rewrite (tts_with_text (exec_ctx cmds (make_ctx net from text args)) h Hp Ht).
  cbn [ctx_googleTTS ctx_base exec_ctx make_ctx ctx_sendText ctx_from
       ctx_sendAudioLink ctx_args].
  fold txt. fold lang. split.
  - intros e He. unfold try_catch, bind at 1. rewrite He. simpl.
    unfold bind, console_error, emit. rewrite void_sendText_trace.
    now rewrite <- app_assoc.
  - intros url Hurl.
    assert (Hrun :
      try_catch
        (url0 <- settle (getAudioUrl net txt lang) ;;
         void (sendAudioLink net from url0))
        (fun e => console_error ["TTS error"] e ;;
                  void (sendText net from "TTS failed.")) h
      = match meta_fetch net h (AudioPayload from url) with
        | inl e =>
            void (sendText net from "TTS failed.")
              (h ++ [MetaPost (AudioPayload from url); ConsoleError ["TTS error"] e])
        | inr _ => (Return tt, h ++ [MetaPost (AudioPayload from url)])
        end).
    { unfold try_catch, bind at 1, settle, ret. rewrite Hurl.
      cbv beta iota. rewrite void_sendAudioLink_run.
      destruct (meta_fetch net h (AudioPayload from url)); [|reflexivity].
      unfold bind, console_error, emit. now rewrite <- app_assoc. }
    rewrite Hrun. split.
    + intros res ->. reflexivity.
    + intros e ->. rewrite void_sendText_trace. now rewrite <- app_assoc.
Qed.

(** [/tts en|Hi] while the TTS library throws: [TTS failed.], no audio. *)
Lemma tts_library_throws_sample :
  snd (execute tts
         (exec_ctx (commands Sample.env)
            (make_ctx Scenario.net_no_tts Sample.sender "/tts en|Hi" "en|Hi")) [])
  = [] ++ [ConsoleError ["TTS error"] {| message := Some "text too long" |};
           MetaPost (TextPayload Sample.sender "TTS failed.")].
Proof.
  destruct (tts_audio_or_failure_text Scenario.net_no_tts (commands Sample.env)
              Sample.sender "/tts en|Hi" "en|Hi" [] eq_refl)
    as [Hthrows _]; [discriminate|].
  exact (Hthrows _ eq_refl).
Defined.

Section EchoFacts.

Lemma lower_prefixed (first : string) :
  Js.startsWith "/" first || Js.startsWith "!" first = true ->
  exists c r, first = String c r
              /\ (c = "/"%char \/ c = "!"%char)
              /\ Js.toLowerCase first = String c (Js.toLowerCase r).
Proof.
  destruct first as [|c r]; simpl; [discriminate|]. intro H.
  exists c, r. apply orb_true_iff in H as [H|H]; apply Ascii.eqb_eq in H; subst c;
    repeat split; auto.
Qed.

(** A first token that stands for [echo] is no onboarding trigger. *)
Lemma echo_word_not_trigger (first : string) :
  command_word first = "echo" ->
  Js.list_includes (Js.toLowerCase first) onboarding_triggers = false.
Proof.
  unfold command_word.
  destruct (Js.startsWith "/" first || Js.startsWith "!" first) eqn:Hp.
  - destruct (lower_prefixed first Hp) as [c [r [-> [Hc Hlow]]]].
    intro Hr. change (Js.slice1 (String c r)) with r in Hr.
    rewrite Hlow, Hr. destruct Hc; subst c; reflexivity.
  - intros ->. reflexivity.
Qed.

End EchoFacts.

(** A message whose first token stands for [echo] ([/echo], [!echo] or
    [echo], in any letter case) is dispatched to [echo], which makes one
    send: [Echo: ] followed by the argument string or, when there is none,
    by the whole trimmed message, which is not empty. *)
Theorem echo_replies_args_or_message
    (env : process_env) (net : network) (from body : string) (h : trace) :
  let text := text_of body in
  let args := args_of (tokenize body) in
  let ctx := make_ctx net from text args in
  command_word (first_of (tokenize body)) = "echo" ->
  handle_text env net (commands env) from body h
    = void (dispatchCommandByName (commands env) (Some "echo") ctx) h
  /\ text <> EmptyString
  /\ execute echo (exec_ctx (commands env) ctx) h
     = void (sendText net from ("Echo: " +++ if Js.truthy args then args else text)) h.
Proof.
  intros text args ctx Hword. split; [|split].
  - pose proof (handle_text_resolves env net (commands env) from body h
                  (echo_word_not_trigger _ Hword)) as Hrun.
    cbv zeta in Hrun. rewrite Hword in Hrun. exact Hrun.
  - intro E. unfold tokenize in Hword. fold text in Hword. rewrite E in Hword.
    discriminate Hword.
  - subst ctx. simpl. fold text. fold args.
    destruct args as [|a r]; [|reflexivity]. simpl. now destruct text.
Qed.

(** [!ECHO] alone is echoed whole. *)
Lemma echo_replies_sample :
  execute echo
    (exec_ctx (commands Sample.env)
       (make_ctx Sample.net_up Sample.sender (text_of " !ECHO ")
          (args_of (tokenize " !ECHO ")))) []
  = void (sendText Sample.net_up Sample.sender "Echo: !ECHO") [].
Proof.
  exact (proj2 (proj2 (echo_replies_args_or_message Sample.env Sample.net_up
                         Sample.sender " !ECHO " [] eq_refl))).
Defined.

(* ================================================================== *)
(** ** Further properties: registration and [help] *)

Section RegistrationOrder.

Lemma get_app_none {V} (k : string) (m1 m2 : list (string * V)) :
  JsMap.get k m1 = None -> JsMap.get k (m1 ++ m2) = JsMap.get k m2.
Proof.
  induction m1 as [|[k' v'] m1 IH]; simpl; [reflexivity|].
  destruct (String.eqb k' k); [discriminate | exact IH].
Qed.

(** A key that is not there is added at the end. *)
Lemma set_fresh {V} (k : string) (v : V) (m : list (string * V)) :
  JsMap.get k m = None -> JsMap.set k v m = m ++ [(k, v)].
Proof.
  induction m as [|[k' v'] m IH]; simpl; [reflexivity|].
  destruct (String.eqb k' k); [discriminate|]. intro H. now rewrite IH.
Qed.

Lemma set_all_fresh (cmd : command) (ks : list string) (m : registry) :
  NoDup ks ->
  (forall k, In k ks -> JsMap.get k m = None) ->
  fold_left (fun m a => JsMap.set a cmd m) ks m
  = m ++ map (fun k => (k, cmd)) ks.
Proof.
  revert m. induction ks as [|k ks IH]; intros m Hnd Hfresh; simpl.
  - now rewrite app_nil_r.
  - inversion Hnd as [|? ? Hnotin Hnd']; subst.
    rewrite set_fresh by (apply Hfresh; now left).
    rewrite IH; [now rewrite <- app_assoc | exact Hnd' |].
    intros k' Hin. rewrite get_app_none by (apply Hfresh; now right).
    simpl. destruct (String.eqb k k') eqn:E; [|reflexivity].
    apply String.eqb_eq in E. subst. now elim Hnotin.
Qed.

Lemma get_entries_for_none (cmd : command) (k : string) :
  ~ In k (keys_of cmd) -> JsMap.get k (entries_for cmd) = None.
Proof.
  unfold entries_for. induction (keys_of cmd) as [|k' ks IH]; simpl; [reflexivity|].
  intro H. destruct (String.eqb k' k) eqn:E.
  - apply String.eqb_eq in E. subst. elim H. now left.
  - apply IH. intro Hin. apply H. now right.
Qed.

End RegistrationOrder.

(** A registration under keys that are all new. *)
Lemma register_fresh (cmd : command) (cmds : registry) :
  name cmd <> EmptyString ->
  NoDup (keys_of cmd) ->
  (forall k, In k (keys_of cmd) -> JsMap.get k cmds = None) ->
  register cmd cmds = cmds ++ entries_for cmd.
Proof.
  intros Hname Hnd Hfresh. unfold register, entries_for, keys_of in *.
  apply truthy_true_iff in Hname. rewrite Hname. simpl.
  inversion Hnd as [|? ? Hnotin Hnd']; subst.
  rewrite set_fresh by (apply Hfresh; now left).
  rewrite set_all_fresh; [now rewrite <- app_assoc | exact Hnd' |].
  intros k Hin. rewrite get_app_none by (apply Hfresh; now right).
  simpl. destruct (String.eqb (name cmd) k) eqn:E; [|reflexivity].
  apply String.eqb_eq in E. subst. now elim Hnotin.
Qed.

(** Registering a named command none of whose keys is in the Map, and whose
    keys are distinct, adds one entry per key after the entries there are:
    the canonical name first, then the aliases in their order. *)
Theorem register_appends_new_keys (cmd : command) (cmds : registry) :
  name cmd <> EmptyString ->
  NoDup (keys_of cmd) ->
  (forall k, In k (keys_of cmd) -> JsMap.get k cmds = None) ->
  register cmd cmds = cmds ++ entries_for cmd.
Proof.
  intros Hname Hnd Hfresh. unfold register, entries_for.
  apply truthy_true_iff in Hname. rewrite Hname. cbn [negb].
  unfold keys_of in *. cbn [map].
  inversion Hnd as [|? ? Hnotin Hnd']; subst.
  rewrite (set_fresh (name cmd) cmd cmds (Hfresh _ (or_introl eq_refl))).
  rewrite set_all_fresh; [now rewrite <- app_assoc | exact Hnd' |].
  intros k Hin. rewrite get_app_none by (apply Hfresh; now right).
  cbn [JsMap.get]. destruct (String.eqb (name cmd) k) eqn:E; [|reflexivity].
  apply String.eqb_eq in E. subst. now elim Hnotin.
Qed.

(** [tts] registered after the four commands before it. *)
Lemma register_appends_sample :
  register tts (fold_left (fun m cmd => register cmd m)
                  [start Sample.env; ping; help; translate] [])
  = fold_left (fun m cmd => register cmd m)
      [start Sample.env; ping; help; translate] []
    ++ [("tts", tts); ("voice", tts)].
Proof.
  apply (register_appends_new_keys tts).
  - discriminate.
  - nodup_strings.
  - intros k [<-|[<-|[]]]; reflexivity.
Defined.

(** Last write wins: after two registrations a key of the second command
    maps to the second command, even if it was a key of the first; the
    other keys of the first command still map to the first; every other key
    is as before. *)
Theorem register_last_write_wins
    (first second : command) (cmds : registry) (k : string) :
  name first <> EmptyString ->
  name second <> EmptyString ->
  JsMap.get k (register second (register first cmds)) =
    if Js.list_includes k (keys_of second) then Some second
    else if Js.list_includes k (keys_of first) then Some first
    else JsMap.get k cmds.
Proof.
  intros H1 H2. rewrite (register_get second _ k H2).
  destruct (Js.list_includes k (keys_of second)); [reflexivity|].
  apply (register_get first cmds k H1).
Qed.

(** [pong] takes the alias [p] from [ping]; [ping] keeps its name. *)
Lemma register_last_write_sample :
  JsMap.get "p" (register Scenario.pong (register ping [])) = Some Scenario.pong
  /\ JsMap.get "ping" (register Scenario.pong (register ping [])) = Some ping.
Proof.
  split.
  - apply (register_last_write_wins ping Scenario.pong [] "p"); discriminate.
  - apply (register_last_write_wins ping Scenario.pong [] "ping"); discriminate.
Defined.

Section HelpFacts.

Lemma NoDup_app_disjoint {A} (a b : list A) :
  NoDup (a ++ b) -> forall x, In x a -> ~ In x b.
Proof.
  induction a as [|y a IH]; simpl; intros Hnd x Hin; [destruct Hin|].
  inversion Hnd as [|? ? Hnotin Hnd']; subst.
  destruct Hin as [<-|Hin].
  - intro Hb. apply Hnotin. apply in_or_app. now right.
  - now apply IH.
Qed.

(** A sequence of registrations with distinct keys on a Map without them
    yields the entries of each command, in the order of registration. *)
Lemma register_all_fresh (l : list command) (m : registry) :
  Forall (fun c => name c <> EmptyString) l ->
  NoDup (flat_map keys_of l) ->
  (forall k, In k (flat_map keys_of l) -> JsMap.get k m = None) ->
  fold_left (fun m cmd => register cmd m) l m = m ++ flat_map entries_for l.
Proof.
  revert m. induction l as [|c l IH]; intros m Hnames Hnd Hfresh;
    cbn [fold_left flat_map].
  - now rewrite app_nil_r.
  - inversion Hnames as [|? ? Hc Hl]; subst. cbn [flat_map] in Hnd, Hfresh.
    rewrite (register_fresh c m Hc).
    + rewrite IH; [now rewrite <- app_assoc | exact Hl
                  | exact (NoDup_app_remove_l _ _ Hnd) |].
      intros k Hin. rewrite get_app_none.
      * apply get_entries_for_none. intro Hk.
        exact (NoDup_app_disjoint _ _ Hnd k Hk Hin).
      * apply Hfresh. apply in_or_app. now right.
    + exact (NoDup_app_remove_r _ _ Hnd).
    + intros k Hin. apply Hfresh. apply in_or_app. now left.
Qed.

Lemma names_distinct (l : list command) :
  NoDup (flat_map keys_of l) -> NoDup (map name l).
Proof.
  induction l as [|c l IH]; simpl; intro Hnd; [constructor|].
  inversion Hnd as [|? ? Hnotin Hnd']; subst. constructor.
  - intro Hin. apply Hnotin. apply in_or_app. right.
    apply in_map_iff in Hin as [c' [Hname Hc']].
    apply in_flat_map. exists c'. split; [exact Hc'|]. left. exact Hname.
  - apply IH. exact (NoDup_app_remove_l _ _ Hnd').
Qed.

Lemma values_view_app (m1 m2 : registry) :
  values_view (m1 ++ m2) = values_view m1 ++ values_view m2.
Proof. unfold values_view, JsMap.values. now rewrite !map_app. Qed.

Lemma values_view_entries (c : command) :
  values_view (entries_for c)
  = map (fun _ => (name c, description c)) (keys_of c).
Proof.
  unfold values_view, JsMap.values, entries_for. rewrite !map_map. reflexivity.
Qed.

(** The values of a name already seen are skipped. *)
Lemma help_list_skips (n d : string) (ks seen : list string)
    (rest : list (string * string)) :
  Js.list_includes n seen = true ->
  help_list seen (map (fun _ : string => (n, d)) ks ++ rest) = help_list seen rest.
Proof.
  intro Hseen. induction ks as [|k ks IH]; simpl; [reflexivity|].
  rewrite Hseen. exact IH.
Qed.

Lemma help_list_registered (l : list command) (seen : list string) :
  NoDup (map name l) ->
  (forall c, In c l -> Js.list_includes (name c) seen = false) ->
  help_list seen (values_view (flat_map entries_for l)) = map help_line l.
Proof.
  revert seen. induction l as [|c l IH]; intros seen Hnd Hnew; [reflexivity|].
  cbn [flat_map]. rewrite values_view_app, values_view_entries.
  unfold keys_of at 1. cbn [map app help_list].
  rewrite (Hnew c (or_introl eq_refl)).
  rewrite help_list_skips by (simpl; now rewrite String.eqb_refl).
  inversion Hnd as [|? ? Hnotin Hnd']; subst.
  unfold help_line at 1. f_equal.
  apply IH; [exact Hnd'|]. intros c' Hc'. simpl.
  rewrite (Hnew c' (or_intror Hc')), orb_false_r.
  apply String.eqb_neq. intro E. apply Hnotin. rewrite <- E. now apply in_map.
Qed.

End HelpFacts.

(** When the commands registered have names that are not empty and keys
    that are all distinct, [help] lists every command exactly once, whatever
    the number of its aliases, in the order of registration, one line
    [/name <em dash> description] each, in a single send. *)
Theorem help_lists_each_command_once
    (l : list command) (ctx : context) (h : trace) :
  let cmds := fold_left (fun m cmd => register cmd m) l [] in
  Forall (fun c => name c <> EmptyString) l ->
  NoDup (flat_map keys_of l) ->
  cmds = flat_map entries_for l
  /\ execute help (exec_ctx cmds ctx) h
     = void (ctx_sendText ctx (ctx_from ctx)
               ("Commands:" +++ NL +++ Js.join NL (map help_line l))) h.
Proof.
  intros cmds Hnames Hnd.
  assert (Hcmds : cmds = flat_map entries_for l).
  { subst cmds. rewrite register_all_fresh; auto. }
  split; [exact Hcmds|]. rewrite Hcmds. simpl.
  rewrite help_list_registered; [reflexivity | now apply names_distinct |].
  reflexivity.
Qed.

(** The listing of the module: six lines for twelve keys. *)
Lemma help_lists_startup :
  execute help
    (exec_ctx (commands Sample.env)
       (make_ctx Sample.net_up Sample.sender "/help" "")) []
  = void (sendText Sample.net_up Sample.sender
            ("Commands:" +++ NL +++ Js.join NL (map help_line (startup Sample.env)))) [].
Proof.
  apply (help_lists_each_command_once (startup Sample.env)
           (make_ctx Sample.net_up Sample.sender "/help" "") []).
  - unfold startup. repeat (apply Forall_cons; [discriminate|]). apply Forall_nil.
  - change (flat_map keys_of (startup Sample.env))
      with ["start"; "welcome"; "begin"; "ping"; "p"; "help"; "h";
            "translate"; "tr"; "tts"; "voice"; "echo"].
    nodup_strings.
Defined.

(** An alias that is the empty string is registered like any other, but
    the dispatcher never runs a command under the empty name, and neither
    does the router: a message without tokens gets the default reply. *)
Theorem empty_alias_is_never_dispatched
    (env : process_env) (net : network) (cmd : command) (cmds : registry)
    (ctx : context) (from body : string) (h : trace) :
  name cmd <> EmptyString ->
  In EmptyString (aliases cmd) ->
  JsMap.get EmptyString (register cmd cmds) = Some cmd
  /\ dispatchCommandByName (register cmd cmds) (Some EmptyString) ctx h
     = (Return false, h)
  /\ (tokenize body = [] ->
      handle_text env net (register cmd cmds) from body h
      = void (sendText net from (default_reply (text_of body))) h).
Proof.
  intros Hname Hin. split; [|split].
  - rewrite (register_get cmd cmds EmptyString Hname). unfold keys_of. simpl.
    replace (Js.list_includes EmptyString (aliases cmd)) with true;
      [now rewrite orb_true_r|].
    symmetry. apply existsb_exists. exists EmptyString. split; [exact Hin | reflexivity].
  - reflexivity.
  - intro Htok.
    assert (Htrig : Js.list_includes
                      (Js.toLowerCase (first_of (tokenize body))) onboarding_triggers
                    = false) by now rewrite Htok.
    pose proof (handle_text_resolves env net (register cmd cmds) from body h
                  Htrig) as Hrun.
    cbv zeta in Hrun. rewrite Htok in Hrun. exact Hrun.
Qed.

(** [quiet] is registered under the empty alias; a blank message does not
    run it. *)
Lemma empty_alias_sample :
  JsMap.get EmptyString (register Scenario.quiet (commands Sample.env))
    = Some Scenario.quiet
  /\ handle_text Sample.env Sample.net_up
       (register Scenario.quiet (commands Sample.env)) Sample.sender "  " []
     = void (sendText Sample.net_up Sample.sender (default_reply EmptyString)) [].
Proof.
  destruct (empty_alias_is_never_dispatched Sample.env Sample.net_up Scenario.quiet
              (commands Sample.env)
              (make_ctx Sample.net_up Sample.sender "" "") Sample.sender "  " [])
    as [Hget [_ Hrouter]].
  - discriminate.
  - now left.
  - split; [exact Hget | exact (Hrouter eq_refl)].
Defined.

(* ================================================================== *)
(** ** Further properties: deliveries *)

Section LoopFacts.

Context {A : Type}.
Variable f : A -> M unit.

Lemma for_of_app (a b : list A) (h : trace) :
  for_of (a ++ b) f h = (for_of a f ;; for_of b f) h.
Proof.
  revert h. induction a as [|x a IH]; intro h; [reflexivity|].
  simpl. unfold bind. destruct (f x h) as [[[]|e] h1]; [|reflexivity].
  rewrite IH. reflexivity.
Qed.

(** The loop stops at the first iteration that throws. *)
Lemma for_of_stops (pre post : list A) (x : A) (e : js_error) (h h1 h2 : trace) :
  for_of pre f h = (Return tt, h1) ->
  f x h1 = (Throw e, h2) ->
  for_of (pre ++ x :: post) f h = (Throw e, h2).
Proof.
  intros Hpre Hx. rewrite for_of_app. unfold bind. rewrite Hpre. simpl.
  unfold bind. now rewrite Hx.
Qed.

(** The loop completes when every iteration returns. *)
Lemma for_of_returns (l : list A) :
  (forall x, In x l -> forall h, exists h', f x h = (Return tt, h')) ->
  forall h, exists h', for_of l f h = (Return tt, h').
Proof.
  induction l as [|x l IH]; intros Hf h; [now exists h|].
  simpl. unfold bind. destruct (Hf x (or_introl eq_refl) h) as [h1 ->].
  apply IH. intros y Hy. apply Hf. now right.
Qed.

End LoopFacts.

Lemma for_of_flat_map {A B} (g : A -> list B) (f : B -> M unit) (l : list A) (h : trace) :
  for_of l (fun x => for_of (g x) f) h = for_of (flat_map g l) f h.
Proof.
  revert h. induction l as [|x l IH]; intro h; [reflexivity|].
  simpl. rewrite for_of_app. unfold bind.
  destruct (for_of (g x) f h) as [[[]|e] h1]; [apply IH | reflexivity].
Qed.

(** The three nested loops handle the messages of the delivery one after the
    other in document order. *)
Lemma handle_post_flat (env : process_env) (net : network) (cmds : registry)
    (entries : list entry_obj) (h : trace) :
  handle_post env net cmds (Some {| entry := Some entries |}) h
  = (for_of (messages_in entries) (handle_message env net cmds) ;;
     ret {| res_code := 200; res_send := "EVENT_RECEIVED" |}) h.
Proof.
  unfold handle_post, messages_in, bind.
  rewrite <- for_of_flat_map.
  replace (for_of entries
             (fun x => for_of (flat_map messages_of (or_empty (changes x)))
                         (handle_message env net cmds)) h)
    with (for_of entries
            (fun e => for_of (or_empty (changes e))
                        (fun ch => for_of (messages_of ch)
                                     (handle_message env net cmds))) h);
    [reflexivity|].
  revert h. induction entries as [|x l IH]; intro h; [reflexivity|].
  simpl. unfold bind. rewrite for_of_flat_map.
  destruct (for_of (flat_map messages_of (or_empty (changes x)))
              (handle_message env net cmds) h) as [[[]|e] h1];
    [apply IH | reflexivity].
Qed.

(** A POST with an [entry] array: 200 when every message was handled, 500
    once handling one has thrown. *)
Lemma module_exports_post_run (env : process_env) (net : network) (cmds : registry)
    (q : list (string * string)) (entries : list entry_obj) (h : trace) :
  module_exports env net cmds (post_of q entries) h
  = match for_of (messages_in entries) (handle_message env net cmds) h with
    | (Return _, h1) =>
        (Return {| res_code := 200; res_send := "EVENT_RECEIVED" |}, h1)
    | (Throw e, h1) =>
        (Return {| res_code := 500; res_send := "Server error" |},
         h1 ++ [ConsoleError ["Webhook handler error:"] e])
    end.
Proof.
  change (module_exports env net cmds (post_of q entries) h)
    with (try_catch
            (handle_post env net cmds (Some {| entry := Some entries |}))
            (fun err =>
               console_error ["Webhook handler error:"] err ;;
               ret {| res_code := 500; res_send := "Server error" |}) h).
  unfold try_catch. rewrite handle_post_flat. unfold bind.
  destruct (for_of (messages_in entries) (handle_message env net cmds) h)
    as [[[]|e] h1]; reflexivity.
Qed.

Section AcknowledgeFacts.

Variable env : process_env.
Variable net : network.

(** When the Graph API answers every call, handling a message returns. *)
Lemma handle_message_returns (cmds : registry) (m : inbound_message) (h : trace) :
  (forall h p, exists res, meta_fetch net h p = inr res) ->
  exists h', handle_message env net cmds m h = (Return tt, h').
Proof.
  intro Hup.
  assert (Hsend : forall to t h0, exists h',
            void (sendText net to t) h0 = (Return tt, h')).
  { intros to t h0. rewrite void_sendText_run.
    destruct (Hup h0 (TextPayload to t)) as [res ->]. eauto. }
  unfold handle_message. destruct (text_body_of m) as [b|]; [|apply Hsend].
  unfold handle_text.
  destruct (Js.list_includes _ onboarding_triggers).
  - unfold bind at 1.
    destruct (dispatch_returns cmds
                (make_ctx net (msg_from m) (Js.trim b) (args_of (tokens_of (Js.trim b))))
                (Some "start") h) as [did [h1 [-> _]]].
    destruct did; simpl; [now exists h1|].
    unfold bind. destruct (Hsend (msg_from m) (fallback_welcome env) h1) as [h2 ->].
    apply Hsend.
  - destruct (parse_command cmds (tokens_of (Js.trim b))) as [cmdName argsRaw].
    destruct (is_command cmds cmdName); [|apply Hsend].
    unfold void, bind.
    destruct (dispatch_returns cmds
                (make_ctx net (msg_from m) (Js.trim b) argsRaw) cmdName h)
      as [did [h1 [-> _]]].
    now exists h1.
Qed.

(** A message that goes through the dispatcher of the module is handled
    without throwing, whatever the collaborators do. *)
Lemma dispatched_message_returns (m : inbound_message) (h : trace) :
  goes_to_dispatcher (commands env) m = true ->
  exists h', handle_message env net (commands env) m h = (Return tt, h').
Proof.
  unfold goes_to_dispatcher, handle_message.
  destruct (text_body_of m) as [b|]; [|discriminate].
  destruct (Js.list_includes (Js.toLowerCase (first_of (tokenize b)))
              onboarding_triggers) eqn:Htrig; simpl; intro Hword.
  - rewrite (handle_text_onboarding env net (msg_from m) b h Htrig).
    unfold void, bind.
    destruct (dispatch_start_found env
                (make_ctx net (msg_from m) (text_of b) (args_of (tokenize b))) h)
      as [h1 ->].
    now exists h1.
  - pose proof (handle_text_resolves env net (commands env) (msg_from m) b h
                  Htrig) as Hrun.
    cbv zeta in Hrun. rewrite Hword in Hrun. rewrite Hrun. unfold void, bind.
    destruct (dispatch_returns (commands env)
                (make_ctx net (msg_from m) (text_of b) (args_of (tokenize b)))
                (Some (command_word (first_of (tokenize b)))) h)
      as [did [h1 [-> _]]].
    now exists h1.
Qed.

End AcknowledgeFacts.

(** When the Graph API answers every call, with whatever status, every
    well-formed delivery (an [entry] array of objects whose changes and
    messages are arrays of objects or absent, with strings for [from] and
    [text.body]) is acknowledged with 200 [EVENT_RECEIVED], for any registry
    and whatever its messages say. *)
Theorem post_acknowledged_when_graph_answers
    (env : process_env) (net : network) (cmds : registry)
    (q : list (string * string)) (entries : list entry_obj) (h : trace) :
  (forall h p, exists res, meta_fetch net h p = inr res) ->
  exists h',
    module_exports env net cmds (post_of q entries) h
    = (Return {| res_code := 200; res_send := "EVENT_RECEIVED" |}, h').
Proof.
  intro Hup. rewrite module_exports_post_run.
  destruct (for_of_returns (handle_message env net cmds) (messages_in entries)
              (fun m _ h0 => handle_message_returns env net cmds m h0 Hup) h)
    as [h' ->].
  now exists h'.
Qed.

(** Every send is answered 401: the delivery is acknowledged all the same. *)
Lemma post_acknowledged_unauthorized :
  exists h',
    module_exports Sample.env Scenario.net_unauthorized (commands Sample.env)
      (post_of [] (delivery [text_message Sample.sender "/ping"; Sample.image_message])) []
    = (Return {| res_code := 200; res_send := "EVENT_RECEIVED" |}, h').
Proof.
  apply (post_acknowledged_when_graph_answers Sample.env Scenario.net_unauthorized).
  intros h p. eexists. reflexivity.
Defined.

(** A well-formed delivery (as above) all of whose messages start with an
    onboarding trigger or name a command of the module is acknowledged with
    200 whatever the collaborators do: failures inside command handlers
    never reach the response. *)
Theorem post_of_commands_always_acknowledged
    (env : process_env) (net : network)
    (q : list (string * string)) (entries : list entry_obj) (h : trace) :
  Forall (fun m => goes_to_dispatcher (commands env) m = true) (messages_in entries) ->
  exists h',
    module_exports env net (commands env) (post_of q entries) h
    = (Return {| res_code := 200; res_send := "EVENT_RECEIVED" |}, h').
Proof.
  intro Hall. rewrite module_exports_post_run.
  rewrite Forall_forall in Hall.
  destruct (for_of_returns (handle_message env net (commands env)) (messages_in entries)
              (fun m Hm h0 => dispatched_message_returns env net m h0 (Hall m Hm)) h)
    as [h' ->].
  now exists h'.
Qed.

(** Nothing can be reached: [/ping] and [hello] are acknowledged. *)
Lemma post_of_commands_down :
  exists h',
    module_exports Sample.env Scenario.net_down (commands Sample.env)
      (post_of [] (delivery [text_message Sample.sender "/ping";
                             text_message Sample.sender "hello"])) []
    = (Return {| res_code := 200; res_send := "EVENT_RECEIVED" |}, h').
Proof.
  apply (post_of_commands_always_acknowledged Sample.env Scenario.net_down).
  repeat (apply Forall_cons; [reflexivity|]). apply Forall_nil.
Defined.

(** A send that throws outside a command handler (the notice for non-text
    messages, the default reply, the built-in welcome) ends the request: the
    error is logged, the response is 500 [Server error], and the messages
    after that one are not handled at all. *)
Theorem rejected_reply_ends_the_delivery
    (env : process_env) (net : network) (cmds : registry)
    (q : list (string * string)) (entries : list entry_obj)
    (pre post : list inbound_message) (m : inbound_message)
    (e : js_error) (h h1 h2 : trace) :
  messages_in entries = pre ++ m :: post ->
  for_of pre (handle_message env net cmds) h = (Return tt, h1) ->
  handle_message env net cmds m h1 = (Throw e, h2) ->
  module_exports env net cmds (post_of q entries) h
  = (Return {| res_code := 500; res_send := "Server error" |},
     h2 ++ [ConsoleError ["Webhook handler error:"] e]).
Proof.
  intros Hmsgs Hpre Hm. rewrite module_exports_post_run, Hmsgs.
  rewrite (for_of_stops (handle_message env net cmds) pre post m e h h1 h2 Hpre Hm).
  reflexivity.
Qed.

(** The notice for an image is rejected: [/ping] after it is never handled. *)
Lemma rejected_reply_sample :
  module_exports Sample.env Sample.net_flaky (commands Sample.env)
    (post_of [] (delivery [Sample.image_message; text_message Sample.sender "/ping"])) []
  = (Return {| res_code := 500; res_send := "Server error" |},
     [MetaPost (TextPayload Sample.sender non_text_notice)]
     ++ [ConsoleError ["Webhook handler error:"] Sample.fetch_failed]).
Proof.
  apply (rejected_reply_ends_the_delivery Sample.env Sample.net_flaky
           (commands Sample.env) []
           (delivery [Sample.image_message; text_message Sample.sender "/ping"])
           [] [text_message Sample.sender "/ping"] Sample.image_message
           Sample.fetch_failed [] []
           [MetaPost (TextPayload Sample.sender non_text_notice)]);
    reflexivity.
Defined.

(** The exported handler never throws: it always responds, with 200, 400,
    403, 405 or 500; a request that is no POST, and a POST answered 400,
    leave no trace: nothing is sent and nothing is logged. *)
Theorem module_exports_always_responds
    (env : process_env) (net : network) (cmds : registry)
    (req : request) (h : trace) :
  exists r h',
    module_exports env net cmds req h = (Return r, h')
    /\ In (res_code r) [200%Z; 400%Z; 403%Z; 405%Z; 500%Z]
    /\ (method req <> "POST" \/ res_code r = 400%Z -> h' = h).
Proof.
  destruct req as [meth q b]. unfold module_exports. cbn [method query req_body].
  destruct (String.eqb meth "GET") eqn:Hget.
  - exists (handle_get env q), h. split; [reflexivity|]. split; [|reflexivity].
    unfold handle_get. destruct (_ && _); simpl; tauto.
  - destruct (String.eqb meth "POST") eqn:Hpost.
    + apply String.eqb_eq in Hpost. subst meth.
      destruct b as [[[entries|]]|].
      * change (try_catch _ _ h)
          with (module_exports env net cmds (post_of q entries) h).
        rewrite module_exports_post_run.
        destruct (for_of (messages_in entries) (handle_message env net cmds) h)
          as [[[]|e] h1].
        -- exists {| res_code := 200; res_send := "EVENT_RECEIVED" |}, h1.
           split; [reflexivity|]. split; [simpl; tauto|].
           intros [Hm|Hc]; [now elim Hm | discriminate Hc].
        -- exists {| res_code := 500; res_send := "Server error" |},
             (h1 ++ [ConsoleError ["Webhook handler error:"] e]).
           split; [reflexivity|]. split; [simpl; tauto|].
           intros [Hm|Hc]; [now elim Hm | discriminate Hc].
      * exists {| res_code := 400; res_send := "No valid body" |}, h.
        split; [reflexivity|]. split; [simpl; tauto | reflexivity].
      * exists {| res_code := 400; res_send := "No valid body" |}, h.
        split; [reflexivity|]. split; [simpl; tauto | reflexivity].
    + exists {| res_code := 405; res_send := "Method Not Allowed" |}, h.
      split; [reflexivity|]. split; [simpl; tauto | reflexivity].
Qed.

(** A DELETE request is answered without a trace. *)
Lemma module_exports_responds_sample :
  exists r h',
    module_exports Sample.env Sample.net_up (commands Sample.env)
      {| method := "DELETE"; query := []; req_body := None |} [] = (Return r, h')
    /\ h' = [].
Proof.
  destruct (module_exports_always_responds Sample.env Sample.net_up
              (commands Sample.env)
              {| method := "DELETE"; query := []; req_body := None |} [])
    as [r [h' [Hrun [_ Hquiet]]]].
  exists r, h'. split; [exact Hrun|]. apply Hquiet. left. discriminate.
Defined.

(* ================================================================== *)
(** ** Further properties: who is written to *)

Section AppendsFacts.

Variable P : event -> Prop.

Lemma appends_ret {A} (a : A) : appends P (ret a).
Proof. intro h. exists []. simpl. now rewrite app_nil_r. Qed.

Lemma appends_settle {A} (r : js_error + A) : appends P (settle r).
Proof. intro h. exists []. destruct r; simpl; now rewrite app_nil_r. Qed.

Lemma appends_history : appends P history.
Proof. intro h. exists []. simpl. now rewrite app_nil_r. Qed.

Lemma appends_emit (ev : event) : P ev -> appends P (emit ev).
Proof. intros Hev h. exists [ev]. simpl. split; [reflexivity | now constructor]. Qed.

Lemma appends_bind {A B} (m : M A) (k : A -> M B) :
  appends P m -> (forall a, appends P (k a)) -> appends P (bind m k).
Proof.
  intros Hm Hk h. unfold bind. destruct (Hm h) as [ext1 [E1 F1]].
  destruct (m h) as [[a|e] h1]; simpl in E1; subst h1.
  - destruct (Hk a (h ++ ext1)) as [ext2 [E2 F2]].
    exists (ext1 ++ ext2). rewrite E2, app_assoc. split; [reflexivity|].
    apply Forall_app. now split.
  - now exists ext1.
Qed.

Lemma appends_try_catch {A} (m : M A) (k : js_error -> M A) :
  appends P m -> (forall e, appends P (k e)) -> appends P (try_catch m k).
Proof.
  intros Hm Hk h. unfold try_catch. destruct (Hm h) as [ext1 [E1 F1]].
  destruct (m h) as [[a|e] h1]; simpl in E1; subst h1.
  - now exists ext1.
  - destruct (Hk e (h ++ ext1)) as [ext2 [E2 F2]].
    exists (ext1 ++ ext2). rewrite E2, app_assoc. split; [reflexivity|].
    apply Forall_app. now split.
Qed.

Lemma appends_void {A} (m : M A) : appends P m -> appends P (void m).
Proof. intro Hm. apply appends_bind; [exact Hm | intro; apply appends_ret]. Qed.

Lemma appends_for_of {A} (f : A -> M unit) (l : list A) :
  (forall x, In x l -> appends P (f x)) -> appends P (for_of l f).
Proof.
  induction l as [|x l IH]; intro Hf; simpl; [apply appends_ret|].
  apply appends_bind; [apply Hf; now left|].
  intros _. apply IH. intros y Hy. apply Hf. now right.
Qed.

Lemma appends_sendToMeta (net : network) (p : payload) :
  P (MetaPost p) -> appends P (sendToMeta net p).
Proof.
  intro Hp. unfold sendToMeta.
  apply appends_bind; [apply appends_history | intro h0].
  apply appends_bind; [now apply appends_emit | intros _].
  apply appends_bind; [apply appends_settle | intro; apply appends_ret].
Qed.

Lemma appends_translateText (net : network) (text target : string) :
  P (LibrePost text target) ->
  (forall e, P (ConsoleError ["translate error"] e)) ->
  appends P (translateText net text target).
Proof.
  intros Hcall Hlog. unfold translateText. apply appends_try_catch.
  - apply appends_bind; [apply appends_history | intro h0].
    apply appends_bind; [now apply appends_emit | intros _].
    apply appends_bind; [apply appends_settle | intro; apply appends_ret].
  - intro e. apply appends_bind; [apply appends_emit, Hlog | intro; apply appends_ret].
Qed.

(** The dispatcher writes what the handler, the log and the notice write. *)
Lemma appends_dispatch (cmds : registry) (name : option string) (ctx : context) :
  (forall n cmd, JsMap.get n cmds = Some cmd ->
     appends P (execute cmd (exec_ctx cmds ctx))) ->
  (forall t, appends P (ctx_sendText ctx (ctx_from ctx) t)) ->
  (forall w e, P (ConsoleError w e)) ->
  appends P (dispatchCommandByName cmds name ctx).
Proof.
  intros Hexec Hsend Hlog. unfold dispatchCommandByName.
  destruct name as [[|a r]|]; try apply appends_ret.
  destruct (JsMap.get (String a r) cmds) as [cmd|] eqn:Hget; [|apply appends_ret].
  apply appends_bind; [|intro; apply appends_ret].
  apply appends_try_catch; [now apply Hexec with (n := String a r)|].
  intro e. apply appends_bind; [apply appends_emit, Hlog | intros _].
  apply appends_try_catch; [apply appends_void, Hsend | intro; apply appends_ret].
Qed.

End AppendsFacts.

Lemma appends_weaken {A} (P Q : event -> Prop) (m : M A) :
  (forall ev, P ev -> Q ev) -> appends P m -> appends Q m.
Proof.
  intros HPQ Hm h. destruct (Hm h) as [ext [E F]]. exists ext.
  split; [exact E | exact (Forall_impl Q HPQ F)].
Qed.

Section RecipientFacts.

Variable env : process_env.
Variable net : network.
Variable from : string.

Lemma to_sender_sendText (text : string) :
  appends (only_to from) (sendText net from text).
Proof. apply appends_sendToMeta. reflexivity. Qed.

Lemma to_sender_sendAudioLink (url : string) :
  appends (only_to from) (sendAudioLink net from url).
Proof. apply appends_sendToMeta. reflexivity. Qed.

Lemma to_sender_translateText (text target : string) :
  appends (only_to from) (translateText net text target).
Proof. apply appends_translateText; [exact I | intro; exact I]. Qed.

(** Every command of the module, run on a context of the router, writes to
    nobody but the sender. *)
Lemma to_sender_startup (cmds : registry) (text args : string) (cmd : command) :
  In cmd (startup env) ->
  appends (only_to from) (execute cmd (exec_ctx cmds (make_ctx net from text args))).
Proof.
  unfold startup. intros [<-|[<-|[<-|[<-|[<-|[<-|[]]]]]]];
    cbn [execute start ping help translate tts echo ctx_base exec_ctx make_ctx
         ctx_sendText ctx_from ctx_args ctx_raw ctx_translateText
         ctx_sendAudioLink ctx_googleTTS ctx_commands].
  - apply appends_bind; [apply appends_void, to_sender_sendText | intros _].
    apply appends_void, to_sender_sendText.
  - apply appends_void, to_sender_sendText.
  - apply appends_void, to_sender_sendText.
  - destruct (negb (Js.truthy args) || negb (Js.includes Js.PIPE args));
      [apply appends_void, to_sender_sendText|].
    destruct (negb (Js.truthy _)); [apply appends_void, to_sender_sendText|].
    apply appends_bind; [apply to_sender_translateText|].
    intros [[|a r]|]; apply appends_void, to_sender_sendText.
  - destruct (negb (Js.truthy args) || negb (Js.includes Js.PIPE args));
      [apply appends_void, to_sender_sendText|].
    destruct (negb (Js.truthy _)); [apply appends_void, to_sender_sendText|].
    apply appends_try_catch.
    + apply appends_bind; [apply appends_settle | intro url].
      apply appends_void, to_sender_sendAudioLink.
    + intro e. apply appends_bind; [now apply appends_emit | intros _].
      apply appends_void, to_sender_sendText.
  - apply appends_void, to_sender_sendText.
Qed.

Lemma commands_get_startup (n : string) (cmd : command) :
  JsMap.get n (commands env) = Some cmd -> In cmd (startup env).
Proof.
  rewrite commands_entries. unfold startup. cbn [JsMap.get].
  repeat (destruct (String.eqb _ n);
          [intro H; injection H as <-; simpl; tauto|]).
  discriminate.
Qed.

Lemma to_sender_dispatch (name : option string) (text args : string) :
  appends (only_to from)
    (dispatchCommandByName (commands env) name (make_ctx net from text args)).
Proof.
  apply appends_dispatch.
  - intros n cmd Hget. apply to_sender_startup. exact (commands_get_startup n cmd Hget).
  - intro t. apply to_sender_sendText.
  - intros w e. exact I.
Qed.

Lemma to_sender_handle_text (body : string) :
  appends (only_to from) (handle_text env net (commands env) from body).
Proof.
  unfold handle_text.
  destruct (Js.list_includes _ onboarding_triggers).
  - apply appends_bind; [apply to_sender_dispatch | intro did].
    destruct (negb did); [|apply appends_ret].
    apply appends_bind; [apply appends_void, to_sender_sendText | intros _].
    apply appends_void, to_sender_sendText.
  - destruct (parse_command (commands env) _) as [cmdName argsRaw].
    destruct (is_command (commands env) cmdName).
    + apply appends_void, to_sender_dispatch.
    + apply appends_void, to_sender_sendText.
Qed.

End RecipientFacts.

Lemma to_sender_handle_message (env : process_env) (net : network)
    (m : inbound_message) :
  appends (only_to (msg_from m)) (handle_message env net (commands env) m).
Proof.
  unfold handle_message. destruct (text_body_of m).
  - apply to_sender_handle_text.
  - apply appends_void, to_sender_sendText.
Qed.

(** Whatever a message is and whatever the collaborators answer, handling
    it only appends to what has happened, and every call it makes to the
    Graph API, text or audio, is addressed to the sender of that message; a
    whole delivery writes to nobody but the senders of its messages. *)
Theorem replies_go_only_to_the_senders
    (env : process_env) (net : network)
    (q : list (string * string)) (entries : list entry_obj) (h : trace) :
  (forall m h0, exists ext,
     snd (handle_message env net (commands env) m h0) = h0 ++ ext
     /\ Forall (only_to (msg_from m)) ext)
  /\ exists ext,
       snd (module_exports env net (commands env) (post_of q entries) h) = h ++ ext
       /\ Forall (only_to_any (map msg_from (messages_in entries))) ext.
Proof.
  split; [intros m h0; apply to_sender_handle_message|].
  rewrite module_exports_post_run.
  assert (Hloop : appends (only_to_any (map msg_from (messages_in entries)))
                    (for_of (messages_in entries)
                       (handle_message env net (commands env)))).
  { apply appends_for_of. intros m Hm.
    apply appends_weaken with (P := only_to (msg_from m));
      [|apply to_sender_handle_message].
    intros [p|q0 t|w e] Hev; simpl in *; try exact I.
    rewrite Hev. now apply in_map. }
  destruct (Hloop h) as [ext [E F]].
  destruct (for_of (messages_in entries) (handle_message env net (commands env)) h)
    as [[[]|e] h1]; simpl in E; subst h1.
  - now exists ext.
  - exists (ext ++ [ConsoleError ["Webhook handler error:"] e]).
    simpl. rewrite app_assoc. split; [reflexivity|].
    apply Forall_app. split; [exact F|]. constructor; [exact I | constructor].
Qed.

(* ================================================================== *)
(** ** Further properties: lookup after registration *)

Section LookupFacts.

Lemma get_app_some {V} (k : string) (v : V) (m1 m2 : list (string * V)) :
  JsMap.get k m1 = Some v -> JsMap.get k (m1 ++ m2) = Some v.
Proof.
  induction m1 as [|[k' v'] m1 IH]; simpl; [discriminate|].
  destruct (String.eqb k' k); [trivial | exact IH].
Qed.

Lemma get_entries_for_some (cmd : command) (k : string) :
  In k (keys_of cmd) -> JsMap.get k (entries_for cmd) = Some cmd.
Proof.
  unfold entries_for. induction (keys_of cmd) as [|k' ks IH]; simpl; [tauto|].
  intros [->|Hin]; [now rewrite String.eqb_refl|].
  destruct (String.eqb k' k); [reflexivity | now apply IH].
Qed.

Lemma get_entries_all (l : list command) (k : string) (cmd : command) :
  NoDup (flat_map keys_of l) ->
  (JsMap.get k (flat_map entries_for l) = Some cmd
   <-> In cmd l /\ In k (keys_of cmd)).
Proof.
  induction l as [|c l IH]; cbn [flat_map]; intro Hnd.
  - simpl. split; [discriminate | tauto].
  - pose proof (NoDup_app_remove_l _ _ Hnd) as Hnd'.
    pose proof (NoDup_app_disjoint _ _ Hnd) as Hdis.
    destruct (in_dec string_dec k (keys_of c)) as [Hk|Hk].
    + rewrite (get_app_some _ _ _ _ (get_entries_for_some c k Hk)). split.
      * intro E. injection E as <-. split; [now left | exact Hk].
      * intros [[<-|Hin] Hkc]; [reflexivity|].
        exfalso. apply (Hdis k Hk). apply in_flat_map. now exists cmd.
    + rewrite (get_app_none _ _ _ (get_entries_for_none c k Hk)).
      rewrite (IH Hnd'). split.
      * intros [Hin Hkc]. split; [now right | exact Hkc].
      * intros [[<-|Hin] Hkc]; [now elim Hk | now split].
Qed.

End LookupFacts.

(** When the commands registered have names that are not empty and keys
    that are all distinct, a key resolves to a command exactly when that
    command was registered and has the key as its name or as an alias: every
    name and alias finds its own command, and nothing else is found. *)
Theorem registered_keys_resolve
    (l : list command) (k : string) (cmd : command) :
  let cmds := fold_left (fun m c => register c m) l [] in
  Forall (fun c => name c <> EmptyString) l ->
  NoDup (flat_map keys_of l) ->
  (JsMap.get k cmds = Some cmd <-> In cmd l /\ In k (keys_of cmd)).
Proof.
  intros cmds Hnames Hnd. subst cmds.
  rewrite register_all_fresh; auto. now apply get_entries_all.
Qed.

(** [voice] finds [tts] among the commands of the module. *)
Lemma registered_keys_sample :
  JsMap.get "voice" (fold_left (fun m c => register c m) (startup Sample.env) [])
  = Some tts.
Proof.
  apply (registered_keys_resolve (startup Sample.env) "voice" tts).
  - unfold startup. repeat (apply Forall_cons; [discriminate|]). apply Forall_nil.
  - change (flat_map keys_of (startup Sample.env))
      with ["start"; "welcome"; "begin"; "ping"; "p"; "help"; "h";
            "translate"; "tr"; "tts"; "voice"; "echo"].
    nodup_strings.
  - split; [simpl; tauto | right; now left].
Defined.
